(** * Model-id resolution and keyword extraction for MONAIAuto3DSeg models

    A shallow embedding of

    - [Scripts/model_selection_utils.py]: [findModelId],
      [getModelSearchKeywords];
    - [Tutorials/STC-SEG-103_AIBasedSegmentationIn3DSlicer/
       AIBasedSegmentationIn3DSlicer.py]: [Slicer4MinuteTest.findModelId];

    together with the properties of the resolver and of the keyword
    extractor.

    Conventions of the embedding.

    - A Python [str] is a [string]; a character is a code point below 256
      (Latin-1), which is what [ascii] holds.  On that range the Unicode
      tables used by the code are finite and written out below: [\d] and
      [str.isdecimal] accept only [0-9], [str.split()] breaks on the
      twelve white-space code points, [str.lower] shifts [A-Z] and the
      accented capitals.
    - A model descriptor (a Python dict with the keys ["id"], ["title"],
      ["version"] and the optional key ["deprecated"]) is a record.
    - [logic] is always supplied by the caller; the branch that builds a
      [MONAIAuto3DSegLogic] when [logic is None] belongs to the host
      application and is not embedded.
    - A function that may raise returns a [result]. *)

From Stdlib Require Import Ascii String DecimalString.
From stdpp Require Import base option list strings gmap.

Local Open Scope stdpp_scope.

(** ** Python string primitives *)

Module PyStr.

Definition code (c : ascii) : nat := nat_of_ascii c.

(** The line feed, written [\n] in the source. *)
Definition LF : ascii := ascii_of_nat 10.
Definition nl : string := String LF "".

(** [c.isdecimal()], the class [\d] of [re] on [str] patterns. *)
Definition isdecimal (c : ascii) : bool :=
  (48 <=? code c) && (code c <=? 57).

(** [c.isspace()]: the separators of [str.split()]. *)
Definition isspace (c : ascii) : bool :=
  let n := code c in
  ((9 <=? n) && (n <=? 13)) || ((28 <=? n) && (n <=? 32))
  || (n =? 133) || (n =? 160).

(** [c.lower()] *)
Definition lower_char (c : ascii) : ascii :=
  let n := code c in
  if ((65 <=? n) && (n <=? 90))
     || ((192 <=? n) && (n <=? 222) && negb (n =? 215))
  then ascii_of_nat (n + 32) else c.

(** [s.lower()] *)
Fixpoint lower (s : string) : string :=
  match s with
  | EmptyString => EmptyString
  | String c s' => String (lower_char c) (lower s')
  end.

(** [len(s)] *)
Definition len (s : string) : nat := String.length s.

(** [s.startswith(p)] *)
Fixpoint startswith (s p : string) {struct p} : bool :=
  match p, s with
  | EmptyString, _ => true
  | String a p', String b s' => if Ascii.eqb a b then startswith s' p' else false
  | String _ _, EmptyString => false
  end.

(** [s.split()]: [cur] is the token being read. *)
Fixpoint split_from (cur s : string) : list string :=
  match s with
  | EmptyString => match cur with EmptyString => [] | _ => [cur] end
  | String c s' =>
      if isspace c
      then match cur with
           | EmptyString => split_from "" s'
           | _ => cur :: split_from "" s'
           end
      else split_from (cur +:+ String c "") s'
  end.

Definition split (s : string) : list string := split_from "" s.

(** [sep.join(l)] *)
Fixpoint join (sep : string) (l : list string) : string :=
  match l with
  | [] => ""
  | [x] => x
  | x :: rest => x +:+ sep +:+ join sep rest
  end.

(** [x in l] for a list of strings *)
Definition contains (l : list string) (x : string) : bool :=
  existsb (String.eqb x) l.

(** [str(n)] for a non-negative integer, as an f-string renders it. *)
Definition str_of_nat (n : nat) : string :=
  NilEmpty.string_of_uint (Nat.to_uint n).

End PyStr.

(** ** The fragment of [re] used by the resolver

    A pattern is a sequence of atoms; an atom is one character of a
    class, a greedy repetition [+] of a class, or the anchor [$].
    [re.match] anchors the pattern at the start of the string, so the
    leading [^] of the source pattern adds nothing and has no atom. *)

Module Re.
Import PyStr.

Inductive cclass : Type :=
| Dot                 (* .   any character but the line feed *)
| Digit               (* \d  *)
| Lit (a : ascii).    (* a literal character, or an escaped one: \. *)

Definition accepts (k : cclass) (c : ascii) : bool :=
  match k with
  | Dot => negb (Ascii.eqb c LF)
  | Digit => isdecimal c
  | Lit a => Ascii.eqb c a
  end.

Inductive atom : Type :=
| One (k : cclass)    (* k   *)
| Plus (k : cclass)   (* k+  *)
| Eol.                (* $   *)

(** [$] without [re.MULTILINE]: the end of the string, or just before a
    line feed that ends the string. *)
Definition at_eol (s : string) : bool :=
  match s with
  | EmptyString => true
  | String c EmptyString => Ascii.eqb c LF
  | _ => false
  end.

(** The backtracking matcher.  The result lists, atom by atom, the text
    each atom consumed.

    [greedy k rest] is the repetition [k+] followed by the pattern whose
    matcher is [rest]: it first tries to take one more character, and
    gives characters back only when the rest of the pattern fails. *)
Fixpoint greedy (k : cclass) (rest : string -> option (list string)) (s : string)
  : option (list string) :=
  match s with
  | EmptyString => None
  | String c s' =>
      if accepts k c then
        match greedy k rest s' with
        | Some (w :: ws) => Some (String c w :: ws)
        | _ => cons (String c "") <$> rest s'
        end
      else None
  end.

Fixpoint run (p : list atom) (s : string) {struct p} : option (list string) :=
  match p with
  | [] => Some []
  | Eol :: p' =>
      if at_eol s then cons "" <$> run p' s else None
  | One k :: p' =>
      match s with
      | String c s' =>
          if accepts k c then cons (String c "") <$> run p' s' else None
      | EmptyString => None
      end
  | Plus k :: p' => greedy k (run p') s
  end.

(** [r"^(.+)-v\d+\.\d+\.\d+$"] *)
Definition version_pattern : list atom :=
  [ Plus Dot; One (Lit "-"%char); One (Lit "v"%char);
    Plus Digit; One (Lit "."%char); Plus Digit; One (Lit "."%char); Plus Digit;
    Eol ].

(** [re.match(version_pattern, s)] followed by [.group(1)]: the group is
    the text of the first atom. *)
Definition match_group1 (p : list atom) (s : string) : option string :=
  match run p s with
  | Some (g :: _) => Some g
  | _ => None
  end.

End Re.

Import PyStr.

(** ** Data model *)

(** A model descriptor.  [deprecated] is [None] when the key is absent
    from the dict. *)
Record Model : Type := mkModel {
  id : string;
  title : string;
  version : string;
  deprecated : option bool
}.

(** [model.get("deprecated", False)] *)
Definition get_deprecated (model : Model) : bool :=
  match deprecated model with
  | Some b => b
  | None => false
  end.

Inductive exn : Type :=
| ValueError (msg : string)
| IndexError
| TypeError.

Inductive result (A : Type) : Type :=
| Return (a : A)
| Raise (e : exn).
Arguments Return {A} a.
Arguments Raise {A} e.

Definition raises {A} (r : result A) : bool :=
  match r with Return _ => false | Raise _ => true end.

(** A descriptor with the two further optional keys that
    [listAvailableModels] reads, ["description"] and ["imagingModality"].
    The resolver and the extractor see its [core]. *)
Record Descriptor : Type := mkDescriptor {
  core : Model;
  description : option string;
  imagingModality : option string
}.

(** The search box of the module widget, as [setModelById] meets it:
    [import slicer] or [slicer.util.findChild] raises, or [findChild]
    gives a value that is false, or it gives the widget, which shows a
    text. *)
Inductive SearchBox : Type :=
| GuiUnavailable
| BoxMissing
| BoxPresent (text : string).

(** The part of the host application that [setModelById] writes to: the
    parameters of the node [logic.getParameterNode()] and the search box. *)
Record Host : Type := mkHost {
  parameterNode : gmap string string;
  modelSearchBox : SearchBox
}.

(** ** [Scripts/model_selection_utils.py] *)

Module model_selection_utils.

(** The exact-match loop of [findModelId] (and the lookup loop of
    [getModelSearchKeywords]): the first descriptor whose id is the
    requested one. *)
Fixpoint exact_match (preferredModelId : string) (models : list Model)
  : option Model :=
  match models with
  | [] => None
  | model :: rest =>
      if String.eqb (id model) preferredModelId then Some model
      else exact_match preferredModelId rest
  end.

(** The fallback loop: [matchingModels] grows by [append]. *)
Fixpoint collect_matching (baseName : string) (models matchingModels : list Model)
  : list Model :=
  match models with
  | [] => matchingModels
  | model :: rest =>
      if startswith (id model) (baseName +:+ "-v") then
        if negb (get_deprecated model)
        then collect_matching baseName rest (matchingModels ++ [model])
        else collect_matching baseName rest matchingModels
      else collect_matching baseName rest matchingModels
  end.

(** [[m['id'] for m in logic.models if not m.get("deprecated", False)]] *)
Fixpoint availableIds (models : list Model) : list string :=
  match models with
  | [] => []
  | m :: rest =>
      if negb (get_deprecated m) then id m :: availableIds rest
      else availableIds rest
  end.

(** The message of the [ValueError], built from [availableIds]. *)
Definition errorMsg (preferredModelId : string) (availableIds : list string)
  : string :=
  let errorMsg :=
    "Model '" +:+ preferredModelId +:+ "' not found and no fallback available."
    +:+ nl +:+ "Available models:" +:+ nl in
  let errorMsg :=
    fold_left (fun errorMsg modelId => errorMsg +:+ "  - " +:+ modelId +:+ nl)
              (take 10 availableIds) errorMsg in
  if 10 <? length availableIds
  then errorMsg +:+ "  ... and " +:+ str_of_nat (length availableIds - 10)
       +:+ " more" +:+ nl
  else errorMsg.

(** [findModelId(preferredModelId, logic)], with [logic.models] for
    [logic].  The [print] calls write diagnostics only and have no part in
    the result; they are kept in [Store.findModelId] below. *)
Definition findModelId (preferredModelId : string) (models : list Model)
  : result string :=
  match exact_match preferredModelId models with
  | Some _ => Return preferredModelId
  | None =>
      let fallback :=
        match Re.match_group1 Re.version_pattern preferredModelId with
        | Some baseName =>
            match collect_matching baseName models [] with
            | latestModel :: _ => Some (id latestModel)
            | [] => None
            end
        | None => None
        end in
      match fallback with
      | Some modelId => Return modelId
      | None =>
          Raise (ValueError (errorMsg preferredModelId (availableIds models)))
      end
  end.

Definition skipWords : list string :=
  ["segmentation"; "quick"; "-"; "ts1"; "ts2"; "v1"; "v2"; "the"].

(** The keyword loop: stops as soon as two words are kept. *)
Fixpoint collect_keywords (words keywords : list string) : list string :=
  match words with
  | [] => keywords
  | word :: rest =>
      if negb (contains skipWords (lower word)) && (2 <? len word) then
        let keywords := keywords ++ [word] in
        if 2 <=? length keywords then keywords
        else collect_keywords rest keywords
      else collect_keywords rest keywords
  end.

(** [words[0]] *)
Definition first_word (words : list string) : result string :=
  match words with
  | w :: _ => Return w
  | [] => Raise IndexError
  end.

Section Keywords.
(** [translate(category, text)] of [slicer.i18n], or the identity when
    the module cannot be imported. *)
Variable translate : string -> string -> string.

Definition getModelSearchKeywords (modelId : string) (models : list Model)
  : result string :=
  match exact_match modelId models with
  | Some model =>
      let translatedTitle := translate "Models" (title model) in
      let words := split translatedTitle in
      let keywords := collect_keywords words [] in
      match keywords with
      | _ :: _ => Return (join " " keywords)
      | [] =>
          match words with
          | _ :: _ => first_word words
          | [] => Return ""
          end
      end
  | None => Return ""
  end.
End Keywords.

(** [model.get(key, '')] *)
Definition get_text (value : option string) : string :=
  match value with
  | Some text => text
  | None => ""
  end.

(** The dict that [listAvailableModels] builds for one descriptor: the
    six keys are all present. *)
Definition summary (model : Descriptor) : Descriptor :=
  mkDescriptor
    (mkModel (id (core model)) (title (core model)) (version (core model))
             (Some (get_deprecated (core model))))
    (Some (get_text (description model)))
    (Some (get_text (imagingModality model))).

(** The loop of [listAvailableModels]: [models] grows by [append]. *)
Fixpoint list_loop (showDeprecated : bool) (logic_models models : list Descriptor)
  : list Descriptor :=
  match logic_models with
  | [] => models
  | model :: rest =>
      if negb showDeprecated && get_deprecated (core model)
      then list_loop showDeprecated rest models
      else list_loop showDeprecated rest (models ++ [summary model])
  end.

Definition listAvailableModels (logic_models : list Descriptor) (showDeprecated : bool)
  : list Descriptor :=
  list_loop showDeprecated logic_models [].

(** The loop of [findModelsByBaseName]. *)
Fixpoint base_name_loop (baseName : string) (includeDeprecated : bool)
         (models : list Model) (matchingModels : list string) : list string :=
  match models with
  | [] => matchingModels
  | model :: rest =>
      if startswith (id model) (baseName +:+ "-v") then
        if includeDeprecated || negb (get_deprecated model)
        then base_name_loop baseName includeDeprecated rest
                            (matchingModels ++ [id model])
        else base_name_loop baseName includeDeprecated rest matchingModels
      else base_name_loop baseName includeDeprecated rest matchingModels
  end.

Definition findModelsByBaseName (baseName : string) (models : list Model)
           (includeDeprecated : bool) : list string :=
  base_name_loop baseName includeDeprecated models [].

Section SetModel.
Variable translate : string -> string -> string.

(** The [try] block of [setModelById]: whatever is raised in it is
    dropped by [except: pass]. *)
Definition update_search_box (actualModelId : string) (models : list Model)
           (useTranslatedKeywords : bool) (box : SearchBox) : SearchBox :=
  match box with
  | GuiUnavailable => GuiUnavailable
  | BoxMissing => BoxMissing
  | BoxPresent text =>
      if useTranslatedKeywords then
        match getModelSearchKeywords translate actualModelId models with
        | Return searchKeywords => BoxPresent searchKeywords
        | Raise _ => BoxPresent text
        end
      else BoxPresent ""
  end.

(** [setModelById(modelId, logic, useTranslatedKeywords)]: the result and
    the host after the call. *)
Definition setModelById (modelId : string) (models : list Model)
           (useTranslatedKeywords : bool) (host : Host) : result string * Host :=
  match findModelId modelId models with
  | Raise e => (Raise e, host)
  | Return actualModelId =>
      (Return actualModelId,
       mkHost (<["Model" := actualModelId]> (parameterNode host))
              (update_search_box actualModelId models useTranslatedKeywords
                                 (modelSearchBox host)))
  end.
End SetModel.

End model_selection_utils.

(** ** [AIBasedSegmentationIn3DSlicer.py], class [Slicer4MinuteTest] *)

Module Slicer4MinuteTest.

(** The fallback loop of this copy: no test of [deprecated]. *)
Fixpoint collect_matching (baseName : string) (models matchingModels : list Model)
  : list Model :=
  match models with
  | [] => matchingModels
  | model :: rest =>
      if startswith (id model) (baseName +:+ "-v")
      then collect_matching baseName rest (matchingModels ++ [model])
      else collect_matching baseName rest matchingModels
  end.

Section Resolver.
(** [repr] of a list of strings, as the f-string of the error message
    renders [[m['id'] for m in logic.models[:5]]]. *)
Variable repr : list string -> string.

Definition errorMsg (preferredModelId : string) (models : list Model) : string :=
  "Model '" +:+ preferredModelId
  +:+ "' not found and no fallback available. Available models: "
  +:+ repr (map id (take 5 models)) +:+ "...".

(** The exact-match loop has the same text in both files. *)
Definition findModelId (preferredModelId : string) (models : list Model)
  : result string :=
  match model_selection_utils.exact_match preferredModelId models with
  | Some _ => Return preferredModelId
  | None =>
      let fallback :=
        match Re.match_group1 Re.version_pattern preferredModelId with
        | Some baseName =>
            match collect_matching baseName models [] with
            | latestModel :: _ => Some (id latestModel)
            | [] => None
            end
        | None => None
        end in
      match fallback with
      | Some modelId => Return modelId
      | None => Raise (ValueError (errorMsg preferredModelId models))
      end
  end.
End Resolver.

(** The stop list of this copy: no ["the"]. *)
Definition skipWords : list string :=
  ["segmentation"; "quick"; "-"; "ts1"; "ts2"; "v1"; "v2"].

Fixpoint collect_keywords (words keywords : list string) : list string :=
  match words with
  | [] => keywords
  | word :: rest =>
      if negb (contains skipWords (lower word)) && (2 <? len word) then
        let keywords := keywords ++ [word] in
        if 2 <=? length keywords then keywords
        else collect_keywords rest keywords
      else collect_keywords rest keywords
  end.

Section Keywords.
(** [translate] of [slicer.i18n]. *)
Variable translate : string -> string -> string.

Definition getModelSearchKeywords (modelId : string) (models : list Model)
  : result string :=
  match model_selection_utils.exact_match modelId models with
  | Some model =>
      let translatedTitle := translate "Models" (title model) in
      let words := split translatedTitle in
      let keywords := collect_keywords words [] in
      match keywords with
      | _ :: _ => Return (join " " keywords)
      | [] =>
          match words with
          | _ :: _ => model_selection_utils.first_word words
          | [] => Return ""
          end
      end
  | None => Return ""
  end.
End Keywords.

End Slicer4MinuteTest.

(** ** [Scripts/setup_tutorial_files.py]

    Of [setup_tutorial_files], the computation of the tutorial name
    without its id.  The rest of the script works on the file system
    through [pathlib], [glob] and [shutil] and is not embedded. *)

Module setup_tutorial_files.

(** [sep in s], for a separator of one character *)
Fixpoint has_char (sep : ascii) (s : string) : bool :=
  match s with
  | EmptyString => false
  | String c s' => Ascii.eqb c sep || has_char sep s'
  end.

(** [s.split(sep, 1)], for a separator of one character: the text before
    the first separator and the text after it, or [s] alone. *)
Fixpoint split_once (sep : ascii) (s : string) : list string :=
  match s with
  | EmptyString => [""]
  | String c s' =>
      if Ascii.eqb c sep then [""; s']
      else match split_once sep s' with
           | [] => []
           | first :: others => String c first :: others
           end
  end.

(** [l[1]] *)
Definition second (l : list string) : result string :=
  match l with
  | _ :: x :: _ => Return x
  | _ => Raise IndexError
  end.

(** Lines 57-59: [tutorial_name_only]. *)
Definition tutorial_name_only (tutorial_name : string) : result string :=
  if has_char "_" tutorial_name
  then second (split_once "_" tutorial_name)
  else Return tutorial_name.

End setup_tutorial_files.

(** ** [findModelId] on the object store

    The same function once more, now with the objects it touches: the
    list [logic.models] and the dicts it refers to live in a heap, the
    local list [matchingModels] is allocated there and filled with
    references to the {e same} dicts, and [print] writes to the standard
    output.  A [for] loop walks the items the list holds when the loop
    starts. *)

Module Store.
Import model_selection_utils.

Definition loc : Type := positive.

Inductive obj : Type :=
| Dict (m : Model)
| List (items : list loc).

(** The diagnostic lines, one constructor per [print] of the source. *)
Inductive diag : Type :=
| ModelFound (modelId : string)
| ExactNotFound (modelId : string)
| Searching (baseName : string)
| UsingFallback (modelId : string)
| ShowTitle (t : string)
| ShowVersion (v : string).

Record state : Type := mkState {
  heap : gmap loc obj;
  stdout : list diag
}.

Definition M (A : Type) : Type := state -> result A * state.

Definition ret {A} (a : A) : M A := fun st => (Return a, st).

Definition raise {A} (e : exn) : M A := fun st => (Raise e, st).

Definition bind {A B} (k : A -> M B) (m : M A) : M B :=
  fun st =>
    match m st with
    | (Return a, st') => k a st'
    | (Raise e, st') => (Raise e, st')
    end.

#[export] Instance M_ret : MRet M := @ret.
#[export] Instance M_bind : MBind M := @bind.

Definition print (d : diag) : M unit :=
  fun st => (Return tt, mkState (heap st) (stdout st ++ [d])).

(** Reading a list object, as [iter] and indexing do. *)
Definition read_list (l : loc) : M (list loc) :=
  fun st =>
    match heap st !! l with
    | Some (List items) => (Return items, st)
    | _ => (Raise TypeError, st)
    end.

(** Reading a dict object, as [model["id"]] and [model.get] do. *)
Definition read_dict (r : loc) : M Model :=
  fun st =>
    match heap st !! r with
    | Some (Dict m) => (Return m, st)
    | _ => (Raise TypeError, st)
    end.

(** [[]]: a new list object at an unused address. *)
Definition new_list : M loc :=
  fun st =>
    let l := fresh (dom (heap st)) in
    (Return l, mkState (<[l := List []]> (heap st)) (stdout st)).

(** [l.append(r)]: the list object at [l] is updated in place. *)
Definition list_append (l r : loc) : M unit :=
  fun st =>
    match heap st !! l with
    | Some (List items) =>
        (Return tt, mkState (<[l := List (items ++ [r])]> (heap st)) (stdout st))
    | _ => (Raise TypeError, st)
    end.

Fixpoint exact_loop (preferredModelId : string) (refs : list loc) : M bool :=
  match refs with
  | [] => ret false
  | model :: rest =>
      m ← read_dict model;
      if String.eqb (id m) preferredModelId
      then print (ModelFound preferredModelId);; ret true
      else exact_loop preferredModelId rest
  end.

Fixpoint fallback_loop (baseName : string) (refs : list loc) (matchingModels : loc)
  : M unit :=
  match refs with
  | [] => ret tt
  | model :: rest =>
      m ← read_dict model;
      (if startswith (id m) (baseName +:+ "-v") then
         if negb (get_deprecated m)
         then list_append matchingModels model
         else ret tt
       else ret tt);;
      fallback_loop baseName rest matchingModels
  end.

Fixpoint available_loop (refs : list loc) : M (list string) :=
  match refs with
  | [] => ret []
  | r :: rest =>
      m ← read_dict r;
      ids ← available_loop rest;
      ret (if negb (get_deprecated m) then id m :: ids else ids)
  end.

Definition fallback_search (preferredModelId : string) (logic_models : loc)
  : M (option string) :=
  match Re.match_group1 Re.version_pattern preferredModelId with
  | Some baseName =>
      print (ExactNotFound preferredModelId);;
      print (Searching baseName);;
      matchingModels ← new_list;
      refs ← read_list logic_models;
      fallback_loop baseName refs matchingModels;;
      found ← read_list matchingModels;
      match found with
      | latestModel :: _ =>
          m ← read_dict latestModel;
          print (UsingFallback (id m));;
          print (ShowTitle (title m));;
          print (ShowVersion (version m));;
          ret (Some (id m))
      | [] => ret None
      end
  | None => ret None
  end.

Definition findModelId (preferredModelId : string) (logic_models : loc) : M string :=
  refs ← read_list logic_models;
  found ← exact_loop preferredModelId refs;
  if found : bool then ret preferredModelId else
  fallback ← fallback_search preferredModelId logic_models;
  match fallback with
  | Some modelId => ret modelId
  | None =>
      refs ← read_list logic_models;
      availableIds ← available_loop refs;
      raise (ValueError (errorMsg preferredModelId availableIds))
  end.

(** The heap [h] holds the collection [models] at [l]: a list object
    whose items are the addresses of dict objects with these contents. *)
Definition holds (h : gmap loc obj) (l : loc) (models : list Model) : Prop :=
  exists refs,
    h !! l = Some (List refs) /\
    Forall2 (fun r m => h !! r = Some (Dict m)) refs models.

End Store.

(** ** Vocabulary of the properties *)

(** Every character of [s] satisfies [P]. *)
Fixpoint every (P : ascii -> bool) (s : string) : bool :=
  match s with
  | EmptyString => true
  | String c s' => P c && every P s'
  end.

(** One or more decimal digits. *)
Definition digits (s : string) : Prop :=
  s <> "" /\ every isdecimal s = true.

(** [-v<major>.<minor>.<patch>] *)
Definition version_suffix (t : string) : Prop :=
  exists major minor patch,
    digits major /\ digits minor /\ digits patch /\
    t = "-v" +:+ major +:+ "." +:+ minor +:+ "." +:+ patch.

(** No white space in [s]. *)
Definition no_space (s : string) : bool :=
  every (fun c => negb (isspace c)) s.

(** No line feed in [s]. *)
Definition no_LF (s : string) : bool :=
  every (fun c => negb (Ascii.eqb c LF)) s.

(** A descriptor the fallback search may return for the base name. *)
Definition candidate (baseName : string) (d : Model) : bool :=
  startswith (id d) (baseName +:+ "-v") && negb (get_deprecated d).

(** A word the extractor drops: a stop word, whatever its case, or a word
    of two characters or fewer. *)
Definition dropped (word : string) : bool :=
  contains ["segmentation"; "quick"; "-"; "ts1"; "ts2"; "v1"; "v2"; "the"]
           (lower word)
  || (len word <=? 2).

(** A word the extractor keeps. *)
Definition keep (word : string) : bool := negb (dropped word).

(** The words of the label that the extractor makes of the words of a
    title: the first two kept words, or the first word when none is kept. *)
Definition label (words : list string) : list string :=
  match take 2 (List.filter keep words) with
  | [] => take 1 words
  | keywords => keywords
  end.

(** The declarative reading of the pattern fragment: [matches p s ws] when
    the atoms of [p] can consume the texts [ws], in this order, from the
    start of [s]. *)
Inductive matches : list Re.atom -> string -> list string -> Prop :=
| matches_nil s : matches [] s []
| matches_eol p s ws :
    Re.at_eol s = true -> matches p s ws ->
    matches (Re.Eol :: p) s ("" :: ws)
| matches_one k p c s ws :
    Re.accepts k c = true -> matches p s ws ->
    matches (Re.One k :: p) (String c s) (String c "" :: ws)
| matches_plus k p w s ws :
    w <> "" -> every (Re.accepts k) w = true -> matches p s ws ->
    matches (Re.Plus k :: p) (w +:+ s) (w :: ws).


(** The texts the version pattern matches, written out. *)
Definition versioned (b major minor patch e : string) : string :=
  b +:+ "-v" +:+ major +:+ "." +:+ minor +:+ "." +:+ patch +:+ e.

(** [m] keeps every object of [h0]: same address, same content. *)
Definition preserves {A} (h0 : gmap Store.loc Store.obj) (m : Store.M A) : Prop :=
  forall st, h0 ⊆ Store.heap st -> h0 ⊆ Store.heap (m st).2.

(** ** Sample data *)

Definition prostate_1_0_0 : Model := mkModel "prostate-v1.0.0" "Prostate Segmentation" "1.0.0" None.
Definition prostate_1_0_1 : Model := mkModel "prostate-v1.0.1" "Prostate Segmentation" "1.0.1" (Some false).
Definition prostate_1_0_2 : Model := mkModel "prostate-v1.0.2" "Prostate Segmentation" "1.0.2" None.
Definition prostate_1_0_3_old : Model := mkModel "prostate-v1.0.3" "Prostate Segmentation" "1.0.3" (Some true).
Definition whole_body : Model := mkModel "whole-body-3mm-v1.0.0" "Whole Body Segmentation TS2 - quick" "1.0.0" None.
Definition short_title : Model := mkModel "ts1-v1.0.0" "TS1 - v2" "1.0.0" None.

Definition numbered (n : nat) : Model :=
  mkModel ("m" +:+ str_of_nat n +:+ "-v1.0.0") "Model" "1.0.0" None.

(** Twelve available descriptors and a deprecated one. *)
Definition thirteen : list Model :=
  prostate_1_0_3_old :: map numbered (seq 1 12).

Definition identity (category text : string) : string := text.

(** A store with the collection at address 1. *)
Definition store0 : Store.state :=
  Store.mkState {[ 1%positive := Store.List [2%positive; 3%positive];
             2%positive := Store.Dict prostate_1_0_3_old;
             3%positive := Store.Dict prostate_1_0_1 ]} [].

(** A host with two parameters set and the search box shown. *)
Definition host0 : Host :=
  mkHost {[ "Model" := "old-v0.0.1"; "CPU" := "true" ]} (BoxPresent "old").

(** A collection with the optional keys present, absent and mixed. *)
Definition catalogue : list Descriptor :=
  [ mkDescriptor prostate_1_0_3_old (Some "Prostate, old") (Some "MR");
    mkDescriptor prostate_1_0_1 None (Some "MR");
    mkDescriptor whole_body (Some "Whole body") None ].

(** * Properties *)

(** ** Strings *)

Lemma str_app_cons (c : ascii) (s t : string) : String c s +:+ t = String c (s +:+ t).
Proof. reflexivity. Qed.

Lemma str_app_nil_l (s : string) : "" +:+ s = s.
Proof. reflexivity. Qed.

Lemma str_app_nil_r (s : string) : s +:+ "" = s.
Proof. induction s as [|c s IH]; [reflexivity|]. by rewrite str_app_cons, IH. Qed.

Lemma str_app_assoc (s t u : string) : (s +:+ t) +:+ u = s +:+ (t +:+ u).
Proof.
  induction s as [|c s IH]; [reflexivity|].
  by rewrite !str_app_cons, IH.
Qed.

(** Appends to the right, characters to the front. *)
Ltac str_norm :=
  repeat (rewrite str_app_assoc || rewrite str_app_cons || rewrite str_app_nil_l).

Lemma str_app_eq_nil (s t : string) : s +:+ t = "" -> s = "" /\ t = "".
Proof. destruct s; [rewrite str_app_nil_l; auto | rewrite str_app_cons; discriminate]. Qed.

Lemma startswith_app (p s : string) : startswith (p +:+ s) p = true.
Proof.
  induction p as [|c p IH]; [reflexivity|].
  rewrite str_app_cons. simpl. by rewrite Ascii.eqb_refl.
Qed.

Lemma startswith_spec (s p : string) :
  startswith s p = true <-> exists t, s = p +:+ t.
Proof.
  split.
  - revert s. induction p as [|a p IH]; intros s H.
    + by exists s.
    + destruct s as [|b s]; simpl in H; [discriminate|].
      destruct (Ascii.eqb_spec a b) as [->|]; [|discriminate].
      destruct (IH _ H) as [t ->]. by exists t.
  - intros [t ->]. apply startswith_app.
Qed.

(** ** The loops of the resolver *)

Section Loops.
Import model_selection_utils.

Lemma exact_match_Some (X : string) (C : list Model) (d : Model) :
  exact_match X C = Some d ->
  exists pre post,
    C = pre ++ d :: post /\ id d = X /\ Forall (fun e => id e <> X) pre.
Proof.
  induction C as [|e C IH]; simpl; [discriminate|].
  destruct (String.eqb_spec (id e) X) as [Heq|Hne]; intros H.
  - injection H as <-. by exists [], C.
  - destruct (IH H) as (pre & post & -> & Hid & Hpre).
    exists (e :: pre), post. by repeat split; [|constructor].
Qed.

Lemma exact_match_first (X : string) (pre post : list Model) (d : Model) :
  Forall (fun e => id e <> X) pre -> id d = X ->
  exact_match X (pre ++ d :: post) = Some d.
Proof.
  intros Hpre Hd. induction Hpre as [|e pre He _ IH]; simpl.
  - by rewrite Hd, String.eqb_refl.
  - by destruct (String.eqb_spec (id e) X).
Qed.

Lemma exact_match_None (X : string) (C : list Model) :
  exact_match X C = None <-> Forall (fun e => id e <> X) C.
Proof.
  induction C as [|e C IH]; simpl.
  - by split; [constructor|].
  - destruct (String.eqb_spec (id e) X) as [Heq|Hne].
    + split; [discriminate|]. by inversion 1.
    + rewrite IH. split; [by constructor | by inversion 1].
Qed.

Lemma exact_match_elem (X : string) (C : list Model) (d : Model) :
  d ∈ C -> id d = X -> is_Some (exact_match X C).
Proof.
  intros Hin Hd. destruct (exact_match X C) eqn:E; [by eexists|].
  apply exact_match_None in E. rewrite Forall_forall in E.
  by destruct (E d Hin).
Qed.

Lemma collect_matching_filter (baseName : string) (C acc : list Model) :
  collect_matching baseName C acc = acc ++ List.filter (candidate baseName) C.
Proof.
  revert acc. induction C as [|e C IH]; intros acc; simpl.
  - by rewrite app_nil_r.
  - unfold candidate at 1.
    destruct (startswith _ _); simpl; [|apply IH].
    destruct (get_deprecated e); simpl; [apply IH|].
    by rewrite IH, <- app_assoc.
Qed.

Lemma filter_first (f : Model -> bool) (pre post : list Model) (d : Model) :
  Forall (fun e => f e = false) pre -> f d = true ->
  List.filter f (pre ++ d :: post) = d :: List.filter f post.
Proof.
  intros Hpre Hd. induction Hpre as [|e pre He _ IH]; simpl.
  - by rewrite Hd.
  - by rewrite He.
Qed.

Lemma filter_none (f : Model -> bool) (C : list Model) :
  Forall (fun e => f e = false) C -> List.filter f C = [].
Proof.
  induction 1 as [|e C He _ IH]; simpl; [done|]. by rewrite He.
Qed.

Lemma availableIds_filter (C : list Model) :
  availableIds C = map id (List.filter (fun d => negb (get_deprecated d)) C).
Proof.
  induction C as [|e C IH]; simpl; [done|].
  destruct (negb (get_deprecated e)); simpl; by rewrite IH.
Qed.

Lemma fold_left_lines (f : string -> string) (l : list string) (acc : string) :
  fold_left (fun msg x => msg +:+ f x) l acc = acc +:+ String.concat "" (map f l).
Proof.
  revert acc. induction l as [|x l IH]; intros acc; simpl.
  - by rewrite str_app_nil_r.
  - rewrite IH, str_app_assoc. f_equal.
    destruct l as [|y l]; simpl; [by rewrite str_app_nil_r|].
    by rewrite str_app_nil_l.
Qed.

(** The resolver, in one equation: exact match first, then the first
    candidate in collection order, then the error. *)
Lemma findModelId_unfold (X : string) (C : list Model) :
  findModelId X C =
    match exact_match X C with
    | Some _ => Return X
    | None =>
        match Re.match_group1 Re.version_pattern X with
        | Some baseName =>
            match List.filter (candidate baseName) C with
            | d :: _ => Return (id d)
            | [] => Raise (ValueError (errorMsg X (availableIds C)))
            end
        | None => Raise (ValueError (errorMsg X (availableIds C)))
        end
    end.
Proof.
  unfold findModelId. destruct (exact_match X C); [done|].
  destruct (Re.match_group1 _ _) as [b|]; [|done].
  rewrite collect_matching_filter. simpl.
  by destruct (List.filter _ _).
Qed.

End Loops.

(** ** The pattern matcher *)

Section Matcher.
Import Re.

Lemma every_app (P : ascii -> bool) (s t : string) :
  every P (s +:+ t) = every P s && every P t.
Proof.
  induction s as [|c s IH]; [reflexivity|].
  rewrite str_app_cons. simpl. by rewrite IH, andb_assoc.
Qed.

Lemma greedy_sound (k : cclass) (rest : string -> option (list string))
      (s : string) (r : list string) :
  greedy k rest s = Some r ->
  exists w s' ws,
    r = w :: ws /\ w <> "" /\ every (accepts k) w = true /\
    s = w +:+ s' /\ rest s' = Some ws.
Proof.
  revert r. induction s as [|c s IH]; intros r; simpl; [discriminate|].
  destruct (accepts k c) eqn:Hc; [|discriminate].
  destruct (greedy k rest s) as [[|w ws]|] eqn:Hg.
  - destruct (IH _ eq_refl) as (? & ? & ? & ? & _); discriminate.
  - intros [= <-].
    destruct (IH _ eq_refl) as (w' & s' & ws' & [= -> ->] & Hw & Hall & -> & Hrest).
    exists (String c w'), s', ws'. repeat split; try done.
    simpl. by rewrite Hc.
  - destruct (rest s) as [ws|] eqn:Hrest; simpl; [|discriminate].
    intros [= <-]. exists (String c ""), s, ws. repeat split; try done.
    simpl. by rewrite Hc.
Qed.

Lemma greedy_complete (k : cclass) (rest : string -> option (list string))
      (w s : string) :
  w <> "" -> every (accepts k) w = true -> is_Some (rest s) ->
  is_Some (greedy k rest (w +:+ s)).
Proof.
  induction w as [|c w IH]; [done|]. intros _ Hall Hrest.
  simpl in Hall. apply andb_prop in Hall as [Hc Hall].
  rewrite str_app_cons. simpl. rewrite Hc.
  destruct w as [|c' w'].
  - rewrite str_app_nil_l.
    destruct (greedy k rest s) as [[|? ?]|]; [| by eexists |];
      destruct Hrest as [ws ->]; by eexists.
  - destruct (IH ltac:(done) Hall Hrest) as [r Hr]. rewrite Hr.
    destruct (greedy_sound _ _ _ _ Hr) as (? & ? & ? & -> & _).
    by eexists.
Qed.

Lemma run_sound (p : list atom) (s : string) (ws : list string) :
  run p s = Some ws -> matches p s ws.
Proof.
  revert s ws. induction p as [|[k|k|] p IH]; intros s ws; simpl.
  - intros [= <-]. constructor.
  - destruct s as [|c s]; [discriminate|].
    destruct (accepts k c) eqn:Hc; [|discriminate].
    destruct (run p s) as [r|] eqn:Hr; simpl; [|discriminate].
    intros [= <-]. constructor; auto.
  - intros H. apply greedy_sound in H
      as (w & s' & r & -> & Hw & Hall & -> & Hr).
    constructor; auto.
  - destruct (at_eol s) eqn:He; [|discriminate].
    destruct (run p s) as [r|] eqn:Hr; simpl; [|discriminate].
    intros [= <-]. constructor; auto.
Qed.

Lemma run_complete (p : list atom) (s : string) (ws : list string) :
  matches p s ws -> is_Some (run p s).
Proof.
  induction 1 as [s|p s ws He _ IH|k p c s ws Hc _ IH|k p w s ws Hw Hall _ IH];
    simpl.
  - by eexists.
  - rewrite He. destruct IH as [r ->]. by eexists.
  - rewrite Hc. destruct IH as [r ->]. by eexists.
  - by apply greedy_complete.
Qed.

End Matcher.

(** ** The version pattern *)

Section VersionPattern.
Import Re.

(** A text is cut in one way only at the last occurrence of a
    character that its tail cannot contain. *)
Lemma cut_unique (P : ascii -> bool) (c : ascii) (a a' d d' : string) :
  P c = false -> every P d = true -> every P d' = true ->
  a +:+ String c d = a' +:+ String c d' -> a = a' /\ d = d'.
Proof.
  intros Hc Hd Hd'. revert a'.
  induction a as [|x a IH]; intros [|y a']; rewrite ?str_app_nil_l, ?str_app_cons.
  - by intros [= ->].
  - intros [= -> ->]. rewrite every_app in Hd. simpl in Hd.
    rewrite Hc, andb_false_r in Hd. discriminate.
  - intros [= -> <-]. rewrite every_app in Hd'. simpl in Hd'.
    rewrite Hc, andb_false_r in Hd'. discriminate.
  - intros [= -> H]. by destruct (IH _ H) as [-> ->].
Qed.

Lemma every_impl (P Q : ascii -> bool) (s : string) :
  (forall c, P c = true -> Q c = true) -> every P s = true -> every Q s = true.
Proof.
  intros HPQ. induction s as [|c s IH]; simpl; [done|].
  intros [Hc Hs]%andb_prop. by rewrite (HPQ _ Hc), IH.
Qed.

Lemma at_eol_cases (e : string) : at_eol e = true <-> e = "" \/ e = nl.
Proof.
  split.
  - destruct e as [|c [|c' e]]; simpl; [by left| |discriminate].
    destruct (Ascii.eqb_spec c LF) as [->|]; [by right|discriminate].
  - by intros [-> | ->].
Qed.

Lemma matches_version_inv (X : string) (ws : list string) :
  matches version_pattern X ws ->
  exists b major minor patch e,
    head ws = Some b /\ b <> "" /\ no_LF b = true /\
    digits major /\ digits minor /\ digits patch /\ at_eol e = true /\
    X = versioned b major minor patch e.
Proof.
  unfold version_pattern. intros H.
  inversion H as [| | |? ? b s1 ws1 Hb Hball H1]; subst; clear H.
  inversion H1 as [| |? ? c1 s2 ws2 Hc1 H2|]; subst; clear H1.
  inversion H2 as [| |? ? c2 s3 ws3 Hc2 H3|]; subst; clear H2.
  inversion H3 as [| | |? ? major s4 ws4 Hmaj Hmajall H4]; subst; clear H3.
  inversion H4 as [| |? ? c3 s5 ws5 Hc3 H5|]; subst; clear H4.
  inversion H5 as [| | |? ? minor s6 ws6 Hmin Hminall H6]; subst; clear H5.
  inversion H6 as [| |? ? c4 s7 ws7 Hc4 H7|]; subst; clear H6.
  inversion H7 as [| | |? ? patch e ws8 Hpat Hpatall H8]; subst; clear H7.
  inversion H8 as [|? ? ? He H9| |]; subst; clear H8.
  simpl in Hc1, Hc2, Hc3, Hc4.
  apply Ascii.eqb_eq in Hc1, Hc2, Hc3, Hc4. subst.
  exists b, major, minor, patch, e. by repeat split.
Qed.

Lemma matches_version_intro (b major minor patch e : string) :
  b <> "" -> no_LF b = true ->
  digits major -> digits minor -> digits patch -> at_eol e = true ->
  matches version_pattern (versioned b major minor patch e)
          [b; "-"; "v"; major; "."; minor; "."; patch; ""].
Proof.
  intros Hb Hnl [Hmaj1 Hmaj2] [Hmin1 Hmin2] [Hpat1 Hpat2] He.
  unfold version_pattern, versioned.
  constructor; [done | done |].
  change ("-v" +:+ ?s) with (String "-" (String "v" s)).
  do 2 (constructor; [done|]).
  constructor; [done | done |].
  change ("." +:+ ?s) with (String "." s).
  constructor; [done|].
  constructor; [done | done |].
  constructor; [done|].
  constructor; [done | done |].
  constructor; [done|]. constructor.
Qed.

Lemma versioned_base_unique
      (b major minor patch e b' major' minor' patch' e' : string) :
  digits major -> digits minor -> digits patch -> at_eol e = true ->
  digits major' -> digits minor' -> digits patch' -> at_eol e' = true ->
  versioned b major minor patch e = versioned b' major' minor' patch' e' ->
  b = b'.
Proof.
  intros [_ Hmaj] [_ Hmin] [_ Hpat] He [_ Hmaj'] [_ Hmin'] [_ Hpat'] He' H.
  set (tailP := fun c => isdecimal c || Ascii.eqb c LF).
  assert (Htail : forall p x, every isdecimal p = true -> at_eol x = true ->
                              every tailP (p +:+ x) = true).
  { intros p x Hp Hx. rewrite every_app.
    rewrite (every_impl isdecimal tailP p); [|by intros c Hc; unfold tailP; rewrite Hc|done].
    apply at_eol_cases in Hx as [-> | ->]; reflexivity. }
  assert (Hre : forall x ma mi pa r,
    versioned x ma mi pa r
    = (x +:+ "-v" +:+ ma +:+ "." +:+ mi) +:+ String "." (pa +:+ r)).
  { intros. unfold versioned. by str_norm. }
  rewrite !Hre in H.
  apply (cut_unique tailP) in H as [H _]; [|done|by apply Htail..].
  assert (Hre2 : forall x ma mi,
    x +:+ "-v" +:+ ma +:+ "." +:+ mi = (x +:+ "-v" +:+ ma) +:+ String "." mi).
  { intros. by str_norm. }
  rewrite !Hre2 in H.
  apply (cut_unique isdecimal) in H as [H _]; [|done..].
  assert (Hre3 : forall x ma,
    x +:+ "-v" +:+ ma = (x +:+ "-") +:+ String "v" ma).
  { intros. by str_norm. }
  rewrite !Hre3 in H.
  apply (cut_unique isdecimal) in H as [H _]; [|done..].
  by apply (cut_unique (fun _ => false)) in H as [H _].
Qed.

(** Which strings the parse accepts, and what it extracts. *)
Lemma match_version_spec (X b : string) :
  match_group1 version_pattern X = Some b <->
  b <> "" /\ no_LF b = true /\
  exists major minor patch e,
    digits major /\ digits minor /\ digits patch /\ at_eol e = true /\
    X = versioned b major minor patch e.
Proof.
  unfold match_group1. split.
  - destruct (run version_pattern X) as [ws|] eqn:Hrun; [|discriminate].
    apply run_sound, matches_version_inv in Hrun
      as (b' & ma & mi & pa & e & Hhd & Hb & Hnl & Hma & Hmi & Hpa & He & ->).
    destruct ws as [|g ws]; [discriminate|]. simpl in Hhd.
    intros [= <-]. injection Hhd as ->. eauto 12.
  - intros (Hb & Hnl & ma & mi & pa & e & Hma & Hmi & Hpa & He & ->).
    destruct (run_complete _ _ _
                (matches_version_intro b ma mi pa e Hb Hnl Hma Hmi Hpa He))
      as [ws Hrun].
    rewrite Hrun.
    apply run_sound, matches_version_inv in Hrun
      as (b' & ma' & mi' & pa' & e' & Hhd & _ & _ & Hma' & Hmi' & Hpa' & He' & Heq).
    destruct ws as [|g ws]; [discriminate|]. simpl in Hhd. injection Hhd as ->.
    f_equal. symmetry. eapply versioned_base_unique; [..|exact Heq]; done.
Qed.

End VersionPattern.

(** ** Splitting on white space *)

Section Split.

Lemma split_from_word (cur w s : string) :
  no_space w = true -> split_from cur (w +:+ s) = split_from (cur +:+ w) s.
Proof.
  revert cur. induction w as [|c w IH]; intros cur Hw.
  - by rewrite str_app_nil_l, str_app_nil_r.
  - simpl in Hw. apply andb_prop in Hw as [Hc Hw].
    rewrite str_app_cons. simpl.
    destruct (isspace c); [discriminate|].
    rewrite IH by done. by str_norm.
Qed.

(** The words of [split] are not empty and hold no white space. *)
Lemma split_from_words (cur s : string) :
  no_space cur = true ->
  Forall (fun w => w <> "" /\ no_space w = true) (split_from cur s).
Proof.
  revert cur. induction s as [|c s IH]; intros cur Hcur; simpl.
  - destruct cur; repeat constructor; done.
  - destruct (isspace c) eqn:Hc.
    + destruct cur; [by apply IH|].
      constructor; [done|]. by apply IH.
    + apply IH. unfold no_space. rewrite every_app. simpl.
      by rewrite Hc, (Hcur : every _ cur = true).
Qed.

Lemma split_words (s : string) :
  Forall (fun w => w <> "" /\ no_space w = true) (split s).
Proof. by apply split_from_words. Qed.

(** Two words with a space between them are split into the two. *)
Lemma split_two (a b : string) :
  a <> "" -> b <> "" -> no_space a = true -> no_space b = true ->
  split (a +:+ " " +:+ b) = [a; b].
Proof.
  intros Ha Hb Hsa Hsb. unfold split.
  rewrite split_from_word, str_app_nil_l by done.
  rewrite str_app_cons, str_app_nil_l. simpl.
  destruct a as [|x a]; [done|].
  rewrite <- (str_app_nil_r b) at 1.
  rewrite split_from_word, str_app_nil_l by done. simpl.
  by destruct b.
Qed.

End Split.

(** ** The keyword loop *)

Section KeywordLoop.
Import model_selection_utils.

(** The test of the keyword loop is the negation of [dropped]. *)
Lemma keep_code (w : string) :
  negb (contains skipWords (lower w)) && (2 <? len w) = keep w.
Proof.
  unfold keep, dropped, skipWords. by rewrite negb_orb, Nat.ltb_antisym.
Qed.

Lemma collect_keywords_cons (w : string) (words acc : list string) :
  collect_keywords (w :: words) acc =
    if keep w then
      if 2 <=? length (acc ++ [w]) then acc ++ [w]
      else collect_keywords words (acc ++ [w])
    else collect_keywords words acc.
Proof. rewrite <- keep_code. reflexivity. Qed.

Lemma collect_keywords_filter (words acc : list string) :
  length acc < 2 ->
  collect_keywords words acc = take 2 (acc ++ List.filter keep words).
Proof.
  revert acc. induction words as [|w words IH]; intros acc Hacc.
  - simpl. rewrite app_nil_r. symmetry. apply take_ge. lia.
  - rewrite collect_keywords_cons. cbn [List.filter].
    destruct (keep w); [|by apply IH].
    replace (acc ++ w :: List.filter keep words)
      with ((acc ++ [w]) ++ List.filter keep words) by by rewrite <- app_assoc.
    assert (Hlen : length (acc ++ [w]) = length acc + 1)
      by (rewrite length_app; simpl; lia).
    destruct (Nat.leb_spec 2 (length (acc ++ [w]))) as [Hle|Hlt].
    + rewrite take_app_le by lia. symmetry. apply take_ge. lia.
    + apply IH. lia.
Qed.

Lemma collect_keywords_take (words : list string) :
  collect_keywords words [] = take 2 (List.filter keep words).
Proof. by rewrite collect_keywords_filter by (simpl; lia). Qed.

End KeywordLoop.

(** ** The resolver on the object store *)

Section StoreFacts.
Import Store model_selection_utils.

Lemma bind_run {A B} (m : M A) (k : A -> M B) (st : state) :
  (m ≫= k) st =
    match m st with
    | (Return a, st') => k a st'
    | (Raise e, st') => (Raise e, st')
    end.
Proof. reflexivity. Qed.

Lemma preserves_ret {A} h0 (a : A) : preserves h0 (mret a).
Proof. by intros st. Qed.

Lemma preserves_raise {A} h0 (e : exn) : preserves h0 (raise (A:=A) e).
Proof. by intros st. Qed.

Lemma preserves_print h0 d : preserves h0 (print d).
Proof. by intros st. Qed.

Lemma preserves_read_list h0 l : preserves h0 (read_list l).
Proof. intros st H. unfold read_list. by destruct (heap st !! l) as [[]|]. Qed.

Lemma preserves_read_dict h0 r : preserves h0 (read_dict r).
Proof. intros st H. unfold read_dict. by destruct (heap st !! r) as [[]|]. Qed.

Lemma preserves_bind_post {A B} h0 (Q : A -> Prop) (m : M A) (k : A -> M B) :
  preserves h0 m ->
  (forall st a, h0 ⊆ heap st -> (m st).1 = Return a -> Q a) ->
  (forall a, Q a -> preserves h0 (k a)) ->
  preserves h0 (m ≫= k).
Proof.
  intros Hm HQ Hk st Hst. rewrite bind_run.
  specialize (Hm st Hst). specialize (HQ st).
  destruct (m st) as [[a|e] st']; simpl in *; [|done].
  apply Hk; auto.
Qed.

Lemma preserves_bind {A B} h0 (m : M A) (k : A -> M B) :
  preserves h0 m -> (forall a, preserves h0 (k a)) -> preserves h0 (m ≫= k).
Proof.
  intros Hm Hk. apply (preserves_bind_post h0 (fun _ => True)); auto.
Qed.

Lemma preserves_new_list h0 : preserves h0 new_list.
Proof.
  intros st H. simpl. apply insert_subseteq_r; [|done].
  eapply lookup_weaken_None; [|done].
  apply not_elem_of_dom, is_fresh.
Qed.

Lemma new_list_fresh h0 st l :
  h0 ⊆ heap st -> (new_list st).1 = Return l -> h0 !! l = None.
Proof.
  intros H [= <-]. eapply lookup_weaken_None; [|done].
  apply not_elem_of_dom, is_fresh.
Qed.

(** Appending to a list that is not an object of [h0] keeps [h0]. *)
Lemma preserves_list_append h0 l r :
  h0 !! l = None -> preserves h0 (list_append l r).
Proof.
  intros Hl st H. unfold list_append.
  destruct (heap st !! l) as [[|items]|]; simpl; try done.
  by apply insert_subseteq_r.
Qed.

Lemma preserves_exact_loop h0 X refs : preserves h0 (exact_loop X refs).
Proof.
  induction refs as [|r refs IH]; simpl; [apply preserves_ret|].
  apply preserves_bind; [apply preserves_read_dict|]. intros m.
  destruct (String.eqb _ _); [|done].
  apply preserves_bind; [apply preserves_print|]. intros _. apply preserves_ret.
Qed.

Lemma preserves_available_loop h0 refs : preserves h0 (available_loop refs).
Proof.
  induction refs as [|r refs IH]; simpl; [apply preserves_ret|].
  apply preserves_bind; [apply preserves_read_dict|]. intros m.
  apply preserves_bind; [done|]. intros ids. apply preserves_ret.
Qed.

Lemma preserves_fallback_loop h0 b refs l :
  h0 !! l = None -> preserves h0 (fallback_loop b refs l).
Proof.
  intros Hl. induction refs as [|r refs IH]; simpl; [apply preserves_ret|].
  apply preserves_bind; [apply preserves_read_dict|]. intros m.
  apply preserves_bind; [|done].
  destruct (startswith _ _); [|apply preserves_ret].
  destruct (negb _); [by apply preserves_list_append | apply preserves_ret].
Qed.

Lemma preserves_fallback_search h0 X l : preserves h0 (fallback_search X l).
Proof.
  unfold fallback_search.
  destruct (Re.match_group1 _ _) as [b|]; [|apply preserves_ret].
  apply preserves_bind; [apply preserves_print|]. intros _.
  apply preserves_bind; [apply preserves_print|]. intros _.
  apply (preserves_bind_post h0 (fun l' => h0 !! l' = None));
    [apply preserves_new_list | apply new_list_fresh |].
  intros l' Hl'.
  apply preserves_bind; [apply preserves_read_list|]. intros refs.
  apply preserves_bind; [by apply preserves_fallback_loop|]. intros _.
  apply preserves_bind; [apply preserves_read_list|]. intros [|r found];
    [apply preserves_ret|].
  apply preserves_bind; [apply preserves_read_dict|]. intros m.
  do 3 (apply preserves_bind; [apply preserves_print|]; intros _).
  apply preserves_ret.
Qed.

Lemma preserves_findModelId h0 X l : preserves h0 (Store.findModelId X l).
Proof.
  unfold Store.findModelId.
  apply preserves_bind; [apply preserves_read_list|]. intros refs.
  apply preserves_bind; [apply preserves_exact_loop|]. intros [|];
    [apply preserves_ret|].
  apply preserves_bind; [apply preserves_fallback_search|]. intros [r|];
    [apply preserves_ret|].
  apply preserves_bind; [apply preserves_read_list|]. intros refs'.
  apply preserves_bind; [apply preserves_available_loop|]. intros ids.
  apply preserves_raise.
Qed.

End StoreFacts.

Section StoreRefinement.
Import Store model_selection_utils.

(** The addresses [refs] point to dicts with the contents [ms]. *)
Abbreviation points h := (Forall2 (fun r m => h !! r = Some (Dict m))).

Lemma points_insert_list (h : gmap loc obj) l items refs ms :
  (forall m, h !! l <> Some (Dict m)) ->
  points h refs ms -> points (<[l := List items]> h) refs ms.
Proof.
  intros Hl. induction 1 as [|r m refs ms Hr _ IH]; constructor; [|done].
  rewrite lookup_insert_ne; [done|]. intros ->. by destruct (Hl m).
Qed.

Lemma exact_loop_spec X refs ms st :
  points (heap st) refs ms ->
  exact_loop X refs st =
    match exact_match X ms with
    | Some _ => (Return true, mkState (heap st) (stdout st ++ [ModelFound X]))
    | None => (Return false, st)
    end.
Proof.
  induction 1 as [|r m refs ms Hr _ IH]; simpl; [done|].
  rewrite bind_run. unfold read_dict at 1. rewrite Hr.
  by destruct (String.eqb (id m) X).
Qed.

Lemma available_loop_spec refs ms st :
  points (heap st) refs ms ->
  available_loop refs st = (Return (availableIds ms), st).
Proof.
  induction 1 as [|r m refs ms Hr _ IH]; simpl; [done|].
  rewrite bind_run. unfold read_dict at 1. rewrite Hr.
  rewrite bind_run, IH. by destruct (negb (get_deprecated m)).
Qed.

Lemma fallback_loop_spec b refs ms l acc h out :
  points h refs ms -> h !! l = Some (List acc) ->
  exists found,
    points h found (List.filter (candidate b) ms) /\
    fallback_loop b refs l (mkState h out)
    = (Return tt, mkState (<[l := List (acc ++ found)]> h) out).
Proof.
  intros Hp. revert ms acc h out Hp.
  induction refs as [|r refs IH]; intros ms acc h out Hp Hl;
    inversion Hp as [|? m ? ms' Hr Hp']; subst; simpl.
  - exists []. split; [constructor|].
    unfold mret, M_ret, ret. by rewrite app_nil_r, insert_id.
  - rewrite bind_run. unfold read_dict at 1. simpl. rewrite Hr.
    rewrite bind_run. unfold candidate at 1.
    destruct (startswith (id m) (b +:+ "-v")); simpl;
      [destruct (get_deprecated m); simpl|]; try by apply IH.
    unfold list_append at 1. simpl. rewrite Hl.
    destruct (IH ms' (acc ++ [r]) (<[l := List (acc ++ [r])]> h) out)
      as (found & Hfound & ->).
    { apply points_insert_list; [|done]. intros m'. by rewrite Hl. }
    { by rewrite lookup_insert_eq. }
    exists (r :: found). split.
    + constructor; [done|].
      eapply Forall2_impl; [exact Hfound|]. intros r' m' Hr'. simpl in Hr'.
      rewrite lookup_insert_ne in Hr'; [done|]. intros <-.
      by rewrite lookup_insert_eq in Hr'.
    + by rewrite insert_insert_eq, <- app_assoc.
Qed.

Lemma bind_print {B} d (k : unit -> M B) h out :
  (print d ≫= k) (mkState h out) = k tt (mkState h (out ++ [d])).
Proof. reflexivity. Qed.

Lemma bind_new_list {B} (k : loc -> M B) h out :
  (new_list ≫= k) (mkState h out)
  = k (fresh (dom h)) (mkState (<[fresh (dom h) := List []]> h) out).
Proof. reflexivity. Qed.

Lemma bind_read_list {B} l items (k : list loc -> M B) h out :
  h !! l = Some (List items) ->
  (read_list l ≫= k) (mkState h out) = k items (mkState h out).
Proof. intros H. rewrite bind_run. unfold read_list. simpl. by rewrite H. Qed.

Lemma bind_read_dict {B} r m (k : Model -> M B) h out :
  h !! r = Some (Dict m) ->
  (read_dict r ≫= k) (mkState h out) = k m (mkState h out).
Proof. intros H. rewrite bind_run. unfold read_dict. simpl. by rewrite H. Qed.

(** The fallback search returns the id of the first candidate, and
    leaves the collection where it was. *)
Lemma fallback_search_spec X l C refs h out :
  h !! l = Some (List refs) -> points h refs C ->
  exists h' out',
    h' !! l = Some (List refs) /\ points h' refs C /\
    fallback_search X l (mkState h out)
    = (Return (b ← Re.match_group1 Re.version_pattern X;
               id <$> head (List.filter (candidate b) C)),
       mkState h' out').
Proof.
  intros Hl Hp. unfold fallback_search.
  destruct (Re.match_group1 _ _) as [b|]; [|by exists h, out].
  rewrite !bind_print, bind_new_list.
  set (l' := fresh (dom h)).
  assert (Hl' : h !! l' = None) by apply not_elem_of_dom, is_fresh.
  assert (Hne : l' <> l) by (intros ->; by rewrite Hl in Hl').
  assert (Hp' : forall items, points (<[l':=List items]> h) refs C).
  { intros items. apply points_insert_list; [|done]. intros m. by rewrite Hl'. }
  rewrite (bind_read_list l refs) by by rewrite lookup_insert_ne.
  rewrite bind_run.
  destruct (fallback_loop_spec b refs C l' [] (<[l':=List []]> h)
              ((out ++ [ExactNotFound X]) ++ [Searching b]))
    as (found & Hfound & ->); [done | by rewrite lookup_insert_eq |].
  rewrite insert_insert_eq, app_nil_l.
  rewrite (bind_read_list l' found) by by rewrite lookup_insert_eq.
  simpl. destruct (List.filter (candidate b) C) as [|d ds];
    inversion Hfound as [|r ? found' ? Hr Hrest]; subst.
  - eexists _, _. split; [by rewrite lookup_insert_ne|]. split; [done|].
    reflexivity.
  - assert (Hrl : r <> l') by (intros ->; by rewrite lookup_insert_eq in Hr).
    rewrite lookup_insert_ne in Hr by done.
    rewrite (bind_read_dict r d) by by rewrite lookup_insert_ne.
    rewrite !bind_print.
    eexists _, _. split; [by rewrite lookup_insert_ne|]. split; [done|].
    reflexivity.
Qed.

(** The store-level resolver computes what the functional one does. *)
Lemma store_findModelId_result X l C st :
  holds (heap st) l C ->
  (Store.findModelId X l st).1 = model_selection_utils.findModelId X C.
Proof.
  intros (refs & Hl & Hp). destruct st as [h out]. simpl in Hl, Hp.
  rewrite findModelId_unfold. unfold Store.findModelId.
  rewrite (bind_read_list l refs) by done.
  rewrite bind_run, (exact_loop_spec X refs C) by done.
  destruct (exact_match X C); [done|].
  rewrite bind_run.
  destruct (fallback_search_spec X l C refs h out Hl Hp)
    as (h' & out' & Hl' & Hp' & ->).
  destruct (Re.match_group1 _ _) as [b|]; simpl.
  - destruct (List.filter (candidate b) C) as [|d ds]; simpl; [|done].
    rewrite (bind_read_list l refs) by done.
    by rewrite bind_run, (available_loop_spec refs C).
  - rewrite (bind_read_list l refs) by done.
    by rewrite bind_run, (available_loop_spec refs C).
Qed.

End StoreRefinement.

(** * The resolver: [findModelId] *)

Section Resolver.
Import model_selection_utils.

(** C2.  An id that occurs verbatim in the collection resolves to
    itself, whatever else the collection holds (a newer version of the
    same base name included): the exact match is tried first. *)
Theorem findModelId_exact (X : string) (C : list Model) (d : Model) :
  d ∈ C -> id d = X -> findModelId X C = Return X.
Proof.
  intros Hin Hd. rewrite findModelId_unfold.
  by destruct (exact_match_elem X C d Hin Hd) as [e ->].
Qed.

(** C1.  When the requested id is absent from the collection, the
    version pattern matches it with base name [baseName], and [d] is the
    first descriptor in collection order that is not deprecated and
    whose id starts with [baseName-v], the resolver returns the id of
    [d].  Versions are never compared: only the position decides. *)
Theorem findModelId_fallback_first
        (X baseName : string) (pre post : list Model) (d : Model) :
  Forall (fun e => id e <> X) (pre ++ d :: post) ->
  Re.match_group1 Re.version_pattern X = Some baseName ->
  Forall (fun e => candidate baseName e = false) pre ->
  startswith (id d) (baseName +:+ "-v") = true ->
  get_deprecated d = false ->
  findModelId X (pre ++ d :: post) = Return (id d).
Proof.
  intros Habs Hre Hpre Hstart Hdep. rewrite findModelId_unfold.
  apply exact_match_None in Habs. rewrite Habs, Hre.
  rewrite filter_first; [done..|].
  unfold candidate. by rewrite Hstart, Hdep.
Qed.

Lemma errorMsg_layout (X : string) (ids : list string) :
  errorMsg X ids =
    "Model '" +:+ X +:+ "' not found and no fallback available." +:+ nl
    +:+ "Available models:" +:+ nl
    +:+ String.concat "" (map (fun i => "  - " +:+ i +:+ nl) (take 10 ids))
    +:+ (if 10 <? length ids
         then "  ... and " +:+ str_of_nat (length ids - 10) +:+ " more" +:+ nl
         else "").
Proof.
  unfold errorMsg.
  rewrite (fold_left_lines (fun i => "  - " +:+ i +:+ nl)).
  destruct (10 <? length ids); str_norm; [done|].
  by rewrite str_app_nil_r.
Qed.

(** C3.  With no exact match, and either no match of the version pattern
    or no descriptor of the base name that is not deprecated, the
    resolver raises [ValueError].  The message names the requested id,
    then lists the ids of the descriptors that are not deprecated, in
    collection order, the first ten at most, then says how many more
    there are when there are more than ten. *)
Theorem findModelId_not_found (X : string) (C : list Model) :
  Forall (fun e => id e <> X) C ->
  (Re.match_group1 Re.version_pattern X = None \/
   exists baseName,
     Re.match_group1 Re.version_pattern X = Some baseName /\
     Forall (fun e => startswith (id e) (baseName +:+ "-v") = true ->
                      get_deprecated e = true) C) ->
  let ids := map id (List.filter (fun e => negb (get_deprecated e)) C) in
  findModelId X C =
    Raise (ValueError
      ("Model '" +:+ X +:+ "' not found and no fallback available." +:+ nl
       +:+ "Available models:" +:+ nl
       +:+ String.concat "" (map (fun i => "  - " +:+ i +:+ nl) (take 10 ids))
       +:+ (if 10 <? length ids
            then "  ... and " +:+ str_of_nat (length ids - 10) +:+ " more" +:+ nl
            else ""))).
Proof.
  intros Habs Hno ids. rewrite findModelId_unfold.
  apply exact_match_None in Habs. rewrite Habs.
  rewrite errorMsg_layout, availableIds_filter. fold ids.
  destruct Hno as [-> | (b & -> & Hdep)]; [done|].
  rewrite filter_none; [done|].
  eapply Forall_impl; [exact Hdep|]. intros e He. simpl in He.
  unfold candidate. destruct (startswith _ _); [|done].
  by rewrite He.
Qed.

(** C10.  The exact match does not look at the [deprecated] flag: a
    deprecated descriptor whose id is the requested one is resolved to.
    The flag only removes the descriptor from the fallback list and from
    the ids listed in the error. *)
Theorem findModelId_exact_deprecated
        (X baseName : string) (pre post : list Model) (d : Model) :
  id d = X -> get_deprecated d = true ->
  findModelId X (pre ++ d :: post) = Return X
  /\ collect_matching baseName (pre ++ d :: post) []
     = collect_matching baseName (pre ++ post) []
  /\ availableIds (pre ++ d :: post) = availableIds (pre ++ post).
Proof.
  intros Hd Hdep. split; [|split].
  - rewrite findModelId_unfold.
    destruct (exact_match_elem X (pre ++ d :: post) d) as [e ->]; [|done..].
    apply elem_of_app. right. by left.
  - rewrite !collect_matching_filter, !List.filter_app. simpl.
    unfold candidate at 2. by rewrite Hdep, andb_false_r.
  - rewrite !availableIds_filter, !List.filter_app. simpl. by rewrite Hdep.
Qed.

End Resolver.

(** * The version-suffix parse *)

Section Parse.
Import model_selection_utils.

Lemma version_suffix_versioned (p t e : string) :
  version_suffix t ->
  exists major minor patch,
    digits major /\ digits minor /\ digits patch /\
    p +:+ t +:+ e = versioned p major minor patch e.
Proof.
  intros (ma & mi & pa & Hma & Hmi & Hpa & ->).
  exists ma, mi, pa. do 3 (split; [done|]).
  unfold versioned. by str_norm.
Qed.

Lemma parse_suffix (p t e : string) :
  p <> "" -> no_LF p = true -> version_suffix t -> Re.at_eol e = true ->
  Re.match_group1 Re.version_pattern (p +:+ t +:+ e) = Some p.
Proof.
  intros Hp Hnl Ht He.
  destruct (version_suffix_versioned p t e Ht)
    as (ma & mi & pa & Hma & Hmi & Hpa & ->).
  apply match_version_spec. eauto 12.
Qed.

Lemma parse_None (X : string) :
  (forall p t e, p <> "" -> no_LF p = true -> version_suffix t ->
                 Re.at_eol e = true -> X <> p +:+ t +:+ e) ->
  Re.match_group1 Re.version_pattern X = None.
Proof.
  intros Hno. destruct (Re.match_group1 _ _) as [b|] eqn:Hm; [|done].
  apply match_version_spec in Hm
    as (Hb & Hnl & ma & mi & pa & e & Hma & Hmi & Hpa & He & ->).
  destruct (Hno b ("-v" +:+ ma +:+ "." +:+ mi +:+ "." +:+ pa) e); try done.
  - by exists ma, mi, pa.
  - unfold versioned. by str_norm.
Qed.

(** C4, amended.  The parse is anchored at the end.  For a requested id
    that ends in [-v<digits>.<digits>.<digits>] after a non-empty prefix
    free of line feeds, the base name is the id less this last suffix,
    whatever hyphens, digits or earlier version-like texts the prefix
    holds.  For a requested id that has no exact match and that does
    not end so, one final line feed set aside, the resolver skips the
    fallback and raises. *)
Theorem version_parse_end_anchored (p t X : string) (C : list Model) :
  (p <> "" -> no_LF p = true -> version_suffix t ->
   Re.match_group1 Re.version_pattern (p +:+ t) = Some p)
  /\
  ((forall q u e, q <> "" -> no_LF q = true -> version_suffix u ->
                  Re.at_eol e = true -> X <> q +:+ u +:+ e) ->
   Forall (fun d => id d <> X) C ->
   Re.match_group1 Re.version_pattern X = None /\
   findModelId X C = Raise (ValueError (errorMsg X (availableIds C)))).
Proof.
  split.
  - intros Hp Hnl Ht.
    rewrite <- (str_app_nil_r t). by apply parse_suffix.
  - intros Hno Habs. pose proof (parse_None X Hno) as Hm.
    split; [done|]. rewrite findModelId_unfold.
    apply exact_match_None in Habs. by rewrite Habs, Hm.
Qed.

Lemma snoc_inj (u u' : string) (c c' : ascii) :
  u +:+ String c "" = u' +:+ String c' "" -> u = u' /\ c = c'.
Proof.
  revert u'. induction u as [|x u IH]; intros [|y u']; str_norm.
  - by intros [= ->].
  - intros [= -> H]. symmetry in H. by destruct u'.
  - intros [= -> H]. by destruct u.
  - intros [= -> H]. by destruct (IH _ H) as [-> ->].
Qed.

Lemma digits_last (s : string) :
  digits s -> exists u c, s = u +:+ String c "" /\ isdecimal c = true.
Proof.
  intros [Hne Hall]. induction s as [|x s IH]; [done|].
  simpl in Hall. apply andb_prop in Hall as [Hx Hs].
  destruct s as [|y s].
  - by exists "", x.
  - destruct (IH ltac:(done) Hs) as (u & c & -> & Hc).
    by exists (String x u), c.
Qed.

(** An id that ends in a version suffix ends in a digit. *)
Lemma version_suffix_last (p t : string) :
  version_suffix t ->
  exists u c, p +:+ t = u +:+ String c "" /\ isdecimal c = true.
Proof.
  intros (ma & mi & pa & _ & _ & Hpa & ->).
  destruct (digits_last pa Hpa) as (u & c & -> & Hc).
  exists (p +:+ "-v" +:+ ma +:+ "." +:+ mi +:+ "." +:+ u), c.
  split; [by str_norm | done].
Qed.

End Parse.

(** * The keyword extractor: [getModelSearchKeywords] *)

Section Extractor.
Import model_selection_utils.
Variable translate : string -> string -> string.

Lemma getModelSearchKeywords_unfold (X : string) (pre post : list Model) (d : Model) :
  Forall (fun e => id e <> X) pre -> id d = X ->
  getModelSearchKeywords translate X (pre ++ d :: post) =
    let words := split (translate "Models" (title d)) in
    match take 2 (List.filter keep words) with
    | [] => Return (match words with w :: _ => w | [] => "" end)
    | keywords => Return (join " " keywords)
    end.
Proof.
  intros Hpre Hd. unfold getModelSearchKeywords.
  rewrite (exact_match_first X pre post d Hpre Hd).
  rewrite collect_keywords_take. simpl.
  destruct (take 2 _); [|done].
  by destruct (split _).
Qed.

(** C6.  Let [d] be the first descriptor of the collection whose id is
    the given one, and [words] its translated title split on white
    space.  When some word is kept (it is not, lower-cased, in the stop
    list, and it is longer than two characters), the result is the
    first two kept words at most, in their order and case, joined by
    one space.  In particular a title of two words, both kept, gives
    the two words joined by one space. *)
Theorem getModelSearchKeywords_first_two
        (X : string) (pre post : list Model) (d : Model) :
  Forall (fun e => id e <> X) pre -> id d = X ->
  let words := split (translate "Models" (title d)) in
  let kept := List.filter keep words in
  (kept <> [] ->
   getModelSearchKeywords translate X (pre ++ d :: post)
   = Return (join " " (take 2 kept)))
  /\
  (forall a b, words = [a; b] -> keep a = true -> keep b = true ->
   getModelSearchKeywords translate X (pre ++ d :: post)
   = Return (a +:+ " " +:+ b)).
Proof.
  intros Hpre Hd. cbv zeta.
  rewrite (getModelSearchKeywords_unfold X pre post d Hpre Hd). cbv zeta.
  split.
  - intros Hkept. by destruct (List.filter keep _) as [|k1 kept'].
  - intros a b Hw Ha Hb. rewrite Hw. simpl. by rewrite Ha, Hb.
Qed.

(** C7.  With [d] and [words] as above, when every word is filtered
    out the result is the first word as it stands, and the empty string
    when there is no word at all. *)
Theorem getModelSearchKeywords_all_filtered
        (X : string) (pre post : list Model) (d : Model) :
  Forall (fun e => id e <> X) pre -> id d = X ->
  let words := split (translate "Models" (title d)) in
  Forall (fun w => dropped w = true) words ->
  getModelSearchKeywords translate X (pre ++ d :: post)
  = Return (match words with w :: _ => w | [] => "" end).
Proof.
  intros Hpre Hd words Hall.
  rewrite (getModelSearchKeywords_unfold X pre post d Hpre Hd).
  cbv zeta. fold words.
  assert (List.filter keep words = []) as ->; [|done].
  induction Hall as [|w ws Hw _ IH]; simpl; [done|].
  unfold keep at 1. by rewrite Hw.
Qed.

(** C8.  The extractor never raises: it returns a string for every id
    and collection, and the empty string when no descriptor has the
    given id. *)
Theorem getModelSearchKeywords_total (X : string) (C : list Model) :
  (exists s, getModelSearchKeywords translate X C = Return s)
  /\ (Forall (fun e => id e <> X) C ->
      getModelSearchKeywords translate X C = Return "").
Proof.
  split.
  - destruct (exact_match X C) as [d|] eqn:Hm.
    + apply exact_match_Some in Hm as (pre & post & -> & Hd & Hpre).
      rewrite (getModelSearchKeywords_unfold X pre post d Hpre Hd). simpl.
      destruct (take 2 _); by eexists.
    + unfold getModelSearchKeywords. rewrite Hm. by eexists.
  - intros Habs. apply exact_match_None in Habs.
    unfold getModelSearchKeywords. by rewrite Habs.
Qed.

End Extractor.

(** * The two copies of the resolver *)

Section Copies.
Variable repr : list string -> string.

(** C5, at the input where the copies part.  The only descriptor of the
    base name is deprecated: the copy in the tutorial script still
    returns it, the one in [model_selection_utils] raises. *)
Theorem copies_differ_on_deprecated :
  let C := [mkModel "prostate-v1.0.1" "Prostate" "1.0.1" (Some true)] in
  Slicer4MinuteTest.findModelId repr "prostate-v1.0.0" C
  = Return "prostate-v1.0.1"
  /\ raises (model_selection_utils.findModelId "prostate-v1.0.0" C) = true.
Proof. split; reflexivity. Qed.

Lemma tutorial_collect_matching_filter (baseName : string) (C acc : list Model) :
  Slicer4MinuteTest.collect_matching baseName C acc
  = acc ++ List.filter (fun d => startswith (id d) (baseName +:+ "-v")) C.
Proof.
  revert acc. induction C as [|e C IH]; intros acc; simpl.
  - by rewrite app_nil_r.
  - destruct (startswith _ _); [|apply IH]. by rewrite IH, <- app_assoc.
Qed.

(** Without deprecated descriptors the copies return the same id, and
    one raises exactly when the other does. *)
Lemma copies_agree_without_deprecated (X : string) (C : list Model) :
  Forall (fun d => get_deprecated d = false) C ->
  match model_selection_utils.findModelId X C,
        Slicer4MinuteTest.findModelId repr X C with
  | Return a, Return b => a = b
  | Raise _, Raise _ => True
  | _, _ => False
  end.
Proof.
  intros Hnd. rewrite findModelId_unfold. unfold Slicer4MinuteTest.findModelId.
  destruct (model_selection_utils.exact_match X C); [done|].
  destruct (Re.match_group1 _ _) as [b|]; [|done].
  rewrite tutorial_collect_matching_filter. simpl.
  assert (List.filter (candidate b) C
          = List.filter (fun d => startswith (id d) (b +:+ "-v")) C) as ->.
  { induction Hnd as [|e C He _ IH]; simpl; [done|].
    unfold candidate at 1. rewrite He, andb_true_r.
    destruct (startswith _ _); by rewrite IH. }
  by destruct (List.filter _ _).
Qed.

End Copies.

(** * No mutation of the collection *)

Section Frame.
Import Store.

(** C9.  A call of the resolver leaves every object of the store that
    was there before the call at its address with its content, whether
    it returns or raises: the list of the collection holds the same
    descriptors in the same order, and every field of every descriptor
    is what it was. *)
Theorem findModelId_no_mutation (X : string) (l : loc) (st : state) :
  let st' := (Store.findModelId X l st).2 in
  (forall a o, heap st !! a = Some o -> heap st' !! a = Some o)
  /\ (forall C, holds (heap st) l C -> holds (heap st') l C).
Proof.
  intros st'.
  assert (Hsub : heap st ⊆ heap st').
  { apply (preserves_findModelId (heap st) X l st). reflexivity. }
  split.
  - intros a o Ha. by eapply lookup_weaken.
  - intros C (refs & Hl & Hp). exists refs. split; [by eapply lookup_weaken|].
    eapply Forall2_impl; [exact Hp|]. intros r m Hr. simpl in Hr.
    exact (lookup_weaken _ _ _ _ Hr Hsub).
Qed.

End Frame.

(** * Worked examples *)

Section Examples.
Import model_selection_utils.

Example ex_parse_plain :
  Re.match_group1 Re.version_pattern "prostate-v1.0.1" = Some "prostate".
Proof. reflexivity. Qed.

Example ex_parse_hyphens :
  Re.match_group1 Re.version_pattern "whole-body-3mm-v1.0.0" = Some "whole-body-3mm".
Proof. reflexivity. Qed.

Example ex_parse_last_suffix :
  Re.match_group1 Re.version_pattern "a-v1.2.3-v10.20.30" = Some "a-v1.2.3".
Proof. reflexivity. Qed.

Example ex_parse_bare : Re.match_group1 Re.version_pattern "prostate" = None.
Proof. reflexivity. Qed.

Example ex_parse_no_base : Re.match_group1 Re.version_pattern "-v1.0.0" = None.
Proof. reflexivity. Qed.

Example ex_parse_final_line_feed :
  Re.match_group1 Re.version_pattern ("a-v1.0.0" +:+ nl) = Some "a".
Proof. reflexivity. Qed.

Example ex_parse_inner_line_feed :
  Re.match_group1 Re.version_pattern ("a" +:+ nl +:+ "b-v1.0.0") = None.
Proof. reflexivity. Qed.

Example ex_split :
  split "  Prostate - Multisequence   MRI " = ["Prostate"; "-"; "Multisequence"; "MRI"].
Proof. reflexivity. Qed.

Example ex_exact_wins :
  findModelId "prostate-v1.0.0" [prostate_1_0_1; prostate_1_0_0] = Return "prostate-v1.0.0".
Proof. reflexivity. Qed.

Example ex_fallback :
  findModelId "prostate-v1.0.0" [prostate_1_0_1] = Return "prostate-v1.0.1".
Proof. reflexivity. Qed.

Example ex_not_found :
  findModelId "nonexistent-v1.0.0" [prostate_1_0_1; prostate_1_0_3_old]
  = Raise (ValueError
      ("Model 'nonexistent-v1.0.0' not found and no fallback available." +:+ nl
       +:+ "Available models:" +:+ nl +:+ "  - prostate-v1.0.1" +:+ nl)).
Proof. reflexivity. Qed.

Example ex_keywords_whole_body :
  getModelSearchKeywords identity "whole-body-3mm-v1.0.0" [prostate_1_0_1; whole_body]
  = Return "Whole Body".
Proof. reflexivity. Qed.

Example ex_keywords_upper_case_stop_word :
  getModelSearchKeywords identity "x"
    [mkModel "x" "QUICK The Brain SEGMENTATION Tumor Model" "1" None]
  = Return "Brain Tumor".
Proof. reflexivity. Qed.

Example ex_store_run :
  let h : gmap Store.loc Store.obj :=
    {[ 1%positive := Store.List [2%positive; 3%positive];
       2%positive := Store.Dict prostate_1_0_3_old;
       3%positive := Store.Dict prostate_1_0_1 ]} in
  (Store.findModelId "prostate-v1.0.0" 1%positive (Store.mkState h [])).1
  = Return "prostate-v1.0.1".
Proof. vm_compute. reflexivity. Qed.

(** After a fallback the new list [matchingModels] refers to the dict
    at address 3, which the collection refers to as well; the collection
    and the dict are as they were. *)
Example ex_store_aliasing :
  let st' := (Store.findModelId "prostate-v1.0.0" 1%positive store0).2 in
  Store.heap st' !! 4%positive = Some (Store.List [3%positive])
  /\ Store.heap st' !! 1%positive = Some (Store.List [2%positive; 3%positive])
  /\ Store.heap st' !! 3%positive = Some (Store.Dict prostate_1_0_1)
  /\ Store.stdout st'
     = [Store.ExactNotFound "prostate-v1.0.0"; Store.Searching "prostate";
        Store.UsingFallback "prostate-v1.0.1";
        Store.ShowTitle "Prostate Segmentation"; Store.ShowVersion "1.0.1"].
Proof. vm_compute. repeat split. Qed.

Example ex_store_raise :
  (Store.findModelId "brain-v1.0.0" 1%positive store0).1
  = Raise (ValueError
      ("Model 'brain-v1.0.0' not found and no fallback available." +:+ nl
       +:+ "Available models:" +:+ nl +:+ "  - prostate-v1.0.1" +:+ nl)).
Proof. vm_compute. reflexivity. Qed.

Example ex_split_two : split "Brain Tumor" = ["Brain"; "Tumor"].
Proof. by apply (split_two "Brain" "Tumor"). Qed.

End Examples.

(** * Instances of the theorems *)

Section Instances.
Import model_selection_utils.

(** The first candidate is returned although a newer one follows. *)
Lemma findModelId_fallback_first_witness :
  findModelId "prostate-v1.0.0" [prostate_1_0_3_old; prostate_1_0_1; prostate_1_0_2]
  = Return "prostate-v1.0.1".
Proof.
  apply (findModelId_fallback_first "prostate-v1.0.0" "prostate"
           [prostate_1_0_3_old] [prostate_1_0_2] prostate_1_0_1).
  - repeat constructor; discriminate.
  - reflexivity.
  - repeat constructor.
  - reflexivity.
  - reflexivity.
Defined.

Lemma findModelId_exact_witness :
  findModelId "prostate-v1.0.0" [prostate_1_0_1; prostate_1_0_0]
  = Return "prostate-v1.0.0".
Proof.
  apply (findModelId_exact "prostate-v1.0.0" [prostate_1_0_1; prostate_1_0_0]
           prostate_1_0_0).
  - apply list_elem_of_further, list_elem_of_here.
  - reflexivity.
Defined.

(** All descriptors of the base name are deprecated; twelve ids are
    available, ten are listed, two are counted. *)
Lemma findModelId_not_found_witness :
  findModelId "prostate-v1.0.0" thirteen
  = Raise (ValueError
      ("Model 'prostate-v1.0.0' not found and no fallback available." +:+ nl
       +:+ "Available models:" +:+ nl
       +:+ "  - m1-v1.0.0" +:+ nl +:+ "  - m2-v1.0.0" +:+ nl
       +:+ "  - m3-v1.0.0" +:+ nl +:+ "  - m4-v1.0.0" +:+ nl
       +:+ "  - m5-v1.0.0" +:+ nl +:+ "  - m6-v1.0.0" +:+ nl
       +:+ "  - m7-v1.0.0" +:+ nl +:+ "  - m8-v1.0.0" +:+ nl
       +:+ "  - m9-v1.0.0" +:+ nl +:+ "  - m10-v1.0.0" +:+ nl
       +:+ "  ... and 2 more" +:+ nl)).
Proof.
  apply (findModelId_not_found "prostate-v1.0.0" thirteen).
  - repeat constructor; discriminate.
  - right. exists "prostate". split; [reflexivity|].
    repeat constructor; discriminate.
Defined.

Lemma findModelId_exact_deprecated_witness :
  findModelId "prostate-v1.0.3" [prostate_1_0_1; prostate_1_0_3_old; prostate_1_0_0]
  = Return "prostate-v1.0.3".
Proof.
  apply (findModelId_exact_deprecated "prostate-v1.0.3" "prostate"
           [prostate_1_0_1] [prostate_1_0_0] prostate_1_0_3_old);
    reflexivity.
Defined.

Lemma no_hyphen_no_suffix (X : string) :
  every (fun c => negb (Ascii.eqb c "-")) X = true ->
  forall q u e, q <> "" -> no_LF q = true -> version_suffix u ->
                Re.at_eol e = true -> X <> q +:+ u +:+ e.
Proof.
  intros HX q u e _ _ (ma & mi & pa & _ & _ & _ & ->) _ ->.
  rewrite !every_app in HX. simpl in HX.
  by rewrite andb_false_r in HX.
Qed.

Lemma version_parse_end_anchored_witness :
  Re.match_group1 Re.version_pattern "a-v1.2.3-v10.20.30" = Some "a-v1.2.3"
  /\ findModelId "prostate" [prostate_1_0_1]
     = Raise (ValueError (errorMsg "prostate" ["prostate-v1.0.1"])).
Proof.
  destruct (version_parse_end_anchored "a-v1.2.3" "-v10.20.30" "prostate"
              [prostate_1_0_1]) as [Hbase Hfail].
  split.
  - apply Hbase; [discriminate | reflexivity |].
    exists "10", "20", "30". by repeat split.
  - apply Hfail.
    + by apply no_hyphen_no_suffix.
    + repeat constructor; discriminate.
Defined.

(** C4 as it is worded fails on line feeds.  An id whose prefix holds a
    line feed ends in a version suffix and yet has no base name; an id
    with a line feed after the suffix does not end in a version suffix
    and yet is parsed, so that the fallback runs. *)
Lemma version_parse_line_feed_counterexample :
  ~ (forall p t : string,
       p <> "" -> version_suffix t ->
       Re.match_group1 Re.version_pattern (p +:+ t) = Some p)
  /\
  ~ (forall (X : string) (C : list Model),
       (forall q u, q <> "" -> version_suffix u -> X <> q +:+ u) ->
       Forall (fun d => id d <> X) C ->
       raises (findModelId X C) = true).
Proof.
  assert (Hsuffix : version_suffix "-v1.0.0").
  { exists "1", "0", "0". by repeat split. }
  split.
  - intros H.
    specialize (H ("a" +:+ nl +:+ "b") "-v1.0.0" ltac:(discriminate) Hsuffix).
    vm_compute in H. discriminate.
  - intros H.
    specialize (H ("a-v1.0.0" +:+ nl) [mkModel "a-v2.0.0" "A" "2.0.0" None]).
    assert (Hraise : raises (findModelId ("a-v1.0.0" +:+ nl)
                               [mkModel "a-v2.0.0" "A" "2.0.0" None]) = true).
    { apply H.
      - intros q u _ Hu Heq.
        destruct (version_suffix_last q u Hu) as (w & c & Hw & Hc).
        rewrite Hw in Heq. apply snoc_inj in Heq as [_ <-]. discriminate.
      - repeat constructor; discriminate. }
    vm_compute in Hraise. discriminate.
Qed.

Lemma getModelSearchKeywords_first_two_witness :
  getModelSearchKeywords identity "whole-body-3mm-v1.0.0" [prostate_1_0_1; whole_body]
  = Return "Whole Body".
Proof.
  destruct (getModelSearchKeywords_first_two identity "whole-body-3mm-v1.0.0"
              [prostate_1_0_1] [] whole_body) as [Hkept _].
  - repeat constructor; discriminate.
  - reflexivity.
  - apply Hkept. discriminate.
Defined.

Lemma getModelSearchKeywords_all_filtered_witness :
  getModelSearchKeywords identity "ts1-v1.0.0" [prostate_1_0_1; short_title]
  = Return "TS1".
Proof.
  apply (getModelSearchKeywords_all_filtered identity "ts1-v1.0.0"
           [prostate_1_0_1] [] short_title).
  - repeat constructor; discriminate.
  - reflexivity.
  - repeat constructor.
Defined.

Lemma getModelSearchKeywords_total_witness :
  getModelSearchKeywords identity "brats-gli-v1.0.0" [prostate_1_0_1; whole_body]
  = Return "".
Proof.
  destruct (getModelSearchKeywords_total identity "brats-gli-v1.0.0"
              [prostate_1_0_1; whole_body]) as [_ Habsent].
  apply Habsent. repeat constructor; discriminate.
Defined.

End Instances.

Section StoreInstances.
Import Store.

(** The call falls back: it allocates [matchingModels], appends to it
    the address of a descriptor of the collection, and prints. *)
Lemma findModelId_no_mutation_witness :
  holds (heap (Store.findModelId "prostate-v1.0.0" 1%positive store0).2)
        1%positive [prostate_1_0_3_old; prostate_1_0_1].
Proof.
  destruct (findModelId_no_mutation "prostate-v1.0.0" 1%positive store0)
    as [_ Hholds].
  apply Hholds. exists [2%positive; 3%positive].
  split; [reflexivity|]. repeat constructor.
Defined.

End StoreInstances.

(** * Further properties of the resolver *)

Section ResolverMore.
Import model_selection_utils.

Lemma filter_head_elem (f : Model -> bool) (C l : list Model) (d : Model) :
  List.filter f C = d :: l -> d ∈ C /\ f d = true.
Proof.
  intros H. rewrite list_elem_of_In. apply List.filter_In.
  rewrite H. by left.
Qed.

Lemma findModelId_Return_elem (X r : string) (C : list Model) :
  findModelId X C = Return r -> exists d, d ∈ C /\ id d = r.
Proof.
  rewrite findModelId_unfold.
  destruct (exact_match X C) as [d|] eqn:Hm.
  - intros [= <-]. apply exact_match_Some in Hm as (pre & post & -> & Hd & _).
    exists d. split; [|done]. apply elem_of_app. right. by left.
  - destruct (Re.match_group1 _ _) as [b|]; [|discriminate].
    destruct (List.filter _ _) as [|d l] eqn:Hf; [discriminate|].
    intros [= <-]. apply filter_head_elem in Hf as [Hin _]. by exists d.
Qed.

(** X1.  The resolver never makes an id up: an id it returns is the id of
    a descriptor of the collection, so that a descriptor can be looked up
    for it. *)
Theorem findModelId_known_id (X r : string) (C : list Model) :
  findModelId X C = Return r ->
  (exists d, d ∈ C /\ id d = r) /\ is_Some (exact_match r C).
Proof.
  intros (d & Hin & Hd)%findModelId_Return_elem.
  split; [by exists d|]. by apply (exact_match_elem r C d).
Qed.

(** X2.  An id returned in place of the requested one comes from the
    fallback: the requested id is absent, the version pattern gave a base
    name, and the id returned belongs to a descriptor that is not
    deprecated and starts with the base name followed by [-v]. *)
Theorem findModelId_substitute (X r : string) (C : list Model) :
  findModelId X C = Return r -> r <> X ->
  Forall (fun e => id e <> X) C /\
  exists baseName d,
    Re.match_group1 Re.version_pattern X = Some baseName /\
    d ∈ C /\ id d = r /\ get_deprecated d = false /\
    startswith r (baseName +:+ "-v") = true.
Proof.
  rewrite findModelId_unfold.
  destruct (exact_match X C) as [d|] eqn:Hm; [by intros [= <-]|].
  intros H Hne. split; [by apply exact_match_None|].
  destruct (Re.match_group1 _ _) as [b|]; [|discriminate].
  destruct (List.filter _ _) as [|d l] eqn:Hf; [discriminate|].
  injection H as <-. apply filter_head_elem in Hf as [Hin Hc].
  unfold candidate in Hc. apply andb_prop in Hc as [Hs Hd].
  exists b, d. repeat split; try done. by destruct (get_deprecated d).
Qed.

(** X3.  Resolving is idempotent: an id the resolver returned resolves to
    itself. *)
Theorem findModelId_idempotent (X r : string) (C : list Model) :
  findModelId X C = Return r -> findModelId r C = Return r.
Proof.
  intros H. apply findModelId_Return_elem in H as (d & Hin & Hd).
  rewrite findModelId_unfold.
  by destruct (exact_match_elem r C d Hin Hd) as [e ->].
Qed.

Lemma base_name_loop_filter (b : string) (incl : bool) (C : list Model)
      (acc : list string) :
  base_name_loop b incl C acc
  = acc ++ map id (List.filter
                     (fun d => startswith (id d) (b +:+ "-v")
                               && (incl || negb (get_deprecated d))) C).
Proof.
  revert acc. induction C as [|e C IH]; intros acc; simpl.
  - by rewrite app_nil_r.
  - destruct (startswith _ _); simpl; [|apply IH].
    destruct (incl || negb (get_deprecated e)); simpl; [|apply IH].
    by rewrite IH, <- app_assoc.
Qed.

Lemma findModelsByBaseName_default (b : string) (C : list Model) :
  findModelsByBaseName b C false = map id (List.filter (candidate b) C).
Proof. unfold findModelsByBaseName. by rewrite base_name_loop_filter. Qed.

(** X4.  The fallback of the resolver is the head of
    [findModelsByBaseName]: for a requested id that is absent and whose
    base name is [baseName], the resolver returns the first id that
    [findModelsByBaseName baseName] lists, and raises when it lists none. *)
Theorem findModelId_head_of_base_name (X baseName : string) (C : list Model) :
  Forall (fun e => id e <> X) C ->
  Re.match_group1 Re.version_pattern X = Some baseName ->
  findModelId X C =
    match findModelsByBaseName baseName C false with
    | r :: _ => Return r
    | [] => Raise (ValueError (errorMsg X (availableIds C)))
    end.
Proof.
  intros Habs Hre. rewrite findModelId_unfold, findModelsByBaseName_default.
  apply exact_match_None in Habs. rewrite Habs, Hre.
  by destruct (List.filter _ _).
Qed.

(** X5.  Every id that [findModelsByBaseName] lists starts with the base
    name followed by [-v], and the resolver resolves it to itself. *)
Theorem findModelsByBaseName_resolves
        (baseName r : string) (C : list Model) (includeDeprecated : bool) :
  r ∈ findModelsByBaseName baseName C includeDeprecated ->
  startswith r (baseName +:+ "-v") = true /\ findModelId r C = Return r.
Proof.
  unfold findModelsByBaseName. rewrite base_name_loop_filter, app_nil_l.
  rewrite list_elem_of_In, List.in_map_iff.
  intros (d & <- & [Hin Hc]%List.filter_In).
  apply andb_prop in Hc as [Hs _]. split; [done|].
  rewrite findModelId_unfold. apply list_elem_of_In in Hin.
  by destruct (exact_match_elem (id d) C d Hin eq_refl) as [e ->].
Qed.

(** X6.  [findModelsByBaseName] does not sort: the ids it lists are a
    sublist of the ids of the collection, in collection order, and the
    list without deprecated descriptors is a sublist of the list with
    them. *)
Theorem findModelsByBaseName_order (baseName : string) (C : list Model) :
  sublist (findModelsByBaseName baseName C false)
          (findModelsByBaseName baseName C true)
  /\ sublist (findModelsByBaseName baseName C true) (map id C).
Proof.
  unfold findModelsByBaseName. rewrite !base_name_loop_filter, !app_nil_l.
  split; induction C as [|e C IH]; simpl; try done.
  - destruct (startswith _ _); simpl; [|done].
    destruct (get_deprecated e); simpl; by constructor.
  - rewrite ?orb_true_l, ?andb_true_r.
    destruct (startswith _ _); simpl; by constructor.
Qed.

End ResolverMore.

(** * Listing the models *)

Section Listing.
Import model_selection_utils.

Lemma list_loop_filter (sd : bool) (C acc : list Descriptor) :
  list_loop sd C acc
  = acc ++ map summary
             (List.filter (fun m => sd || negb (get_deprecated (core m))) C).
Proof.
  revert acc. induction C as [|m C IH]; intros acc; simpl.
  - by rewrite app_nil_r.
  - destruct sd, (get_deprecated (core m)); simpl;
      rewrite IH, <- ?app_assoc; done.
Qed.

(** X7.  The ids that [listAvailableModels] lists by default are the ids
    that the resolver names in its error message, in the same order. *)
Theorem listAvailableModels_ids (C : list Descriptor) :
  map (fun m => id (core m)) (listAvailableModels C false)
  = availableIds (map core C).
Proof.
  unfold listAvailableModels. rewrite list_loop_filter, app_nil_l.
  induction C as [|m C IH]; simpl in *; [done|].
  destruct (get_deprecated (core m)); simpl; by rewrite IH.
Qed.

(** X8.  With [showDeprecated] the listing has one entry for each
    descriptor, in collection order; without it no entry is deprecated,
    and the entries are a sublist of the full listing. *)
Theorem listAvailableModels_deprecated (C : list Descriptor) :
  listAvailableModels C true = map summary C
  /\ Forall (fun m => deprecated (core m) = Some false)
            (listAvailableModels C false)
  /\ sublist (listAvailableModels C false) (listAvailableModels C true).
Proof.
  unfold listAvailableModels. rewrite !list_loop_filter, !app_nil_l.
  split; [|split]; induction C as [|m C IH]; simpl in *; try done.
  - by rewrite IH.
  - destruct (get_deprecated (core m)) eqn:Hd; simpl; [done|].
    constructor; [|done]. simpl. by rewrite Hd.
  - destruct (get_deprecated (core m)); simpl; by constructor.
Qed.

(** X9.  Listing is idempotent: the entries have all six keys, and
    listing them again gives them back. *)
Theorem listAvailableModels_idempotent (C : list Descriptor) (showDeprecated : bool) :
  listAvailableModels (listAvailableModels C showDeprecated) showDeprecated
  = listAvailableModels C showDeprecated.
Proof.
  unfold listAvailableModels. rewrite !list_loop_filter, !app_nil_l.
  induction C as [|m C IH]; [done|]. cbn [List.filter].
  destruct (showDeprecated || negb (get_deprecated (core m))) eqn:Hk;
    [|exact IH].
  cbn [map List.filter].
  change (get_deprecated (core (summary m))) with (get_deprecated (core m)).
  rewrite Hk. cbn [map]. f_equal. exact IH.
Qed.

End Listing.

(** * Further properties of the keyword extractor *)

Section ExtractorMore.
Import model_selection_utils.
Variable translate : string -> string -> string.

Lemma split_word (w : string) :
  w <> "" -> no_space w = true -> split w = [w].
Proof.
  intros Hw Hs. unfold split. rewrite <- (str_app_nil_r w) at 1.
  rewrite split_from_word, str_app_nil_l by done. simpl. by destruct w.
Qed.

(** Words joined by one space are split into the same words. *)
Lemma split_join (ks : list string) :
  Forall (fun w => w <> "" /\ no_space w = true) ks ->
  split (join " " ks) = ks.
Proof.
  induction 1 as [|x ks [Hx Hs] Hks IH]; [done|].
  destruct ks as [|y ks]; [by apply split_word|].
  change (join " " (x :: y :: ks)) with (x +:+ " " +:+ join " " (y :: ks)).
  unfold split in *. rewrite split_from_word, str_app_nil_l by done.
  rewrite str_app_cons, str_app_nil_l.
  set (rest := join " " (y :: ks)) in *.
  destruct x as [|c x]; [done|]. simpl. by rewrite IH.
Qed.

Lemma Forall_filter_bool {A} (P : A -> Prop) (f : A -> bool) (l : list A) :
  Forall P l -> Forall P (List.filter f l).
Proof.
  induction 1 as [|x l Hx _ IH]; simpl; [done|].
  destruct (f x); [by constructor | done].
Qed.

Lemma label_words (words : list string) :
  Forall (fun w => w <> "" /\ no_space w = true) words ->
  Forall (fun w => w <> "" /\ no_space w = true) (label words)
  /\ length (label words) <= 2
  /\ (label words = [] -> words = []).
Proof.
  intros Hw. unfold label.
  destruct (take 2 (List.filter keep words)) as [|k ks] eqn:Hk.
  - split; [by apply Forall_take|]. split; [rewrite length_take; lia|].
    by destruct words.
  - rewrite <- Hk. split; [by apply Forall_take, Forall_filter_bool|].
    split; [rewrite length_take; lia|]. by rewrite Hk.
Qed.

Lemma getModelSearchKeywords_label (X : string) (pre post : list Model) (d : Model) :
  Forall (fun e => id e <> X) pre -> id d = X ->
  getModelSearchKeywords translate X (pre ++ d :: post)
  = Return (join " " (label (split (translate "Models" (title d))))).
Proof.
  intros Hpre Hd.
  rewrite (getModelSearchKeywords_unfold translate X pre post d Hpre Hd).
  cbv zeta. unfold label.
  destruct (take 2 _); [|done]. by destruct (split _).
Qed.

(** X10.  The label the extractor returns has two words at most and is
    normalised: split on white space and joined again with one space it
    is itself, so it has no white space at its ends and no run of white
    space inside. *)
Theorem getModelSearchKeywords_two_words (X s : string) (C : list Model) :
  getModelSearchKeywords translate X C = Return s ->
  length (split s) <= 2 /\ join " " (split s) = s.
Proof.
  destruct (exact_match X C) as [d|] eqn:Hm.
  - apply exact_match_Some in Hm as (pre & post & -> & Hd & Hpre).
    rewrite (getModelSearchKeywords_label X pre post d Hpre Hd).
    intros [= <-].
    destruct (label_words _ (split_words (translate "Models" (title d))))
      as (Hl & Hlen & _).
    by rewrite split_join.
  - unfold getModelSearchKeywords. rewrite Hm. intros [= <-]. split; simpl; lia || done.
Qed.

(** X11.  The extractor returns the empty string in two cases only: no
    descriptor has the given id, or the translated title of the first
    one that has it holds no word. *)
Theorem getModelSearchKeywords_empty_iff (X : string) (C : list Model) :
  getModelSearchKeywords translate X C = Return "" <->
  Forall (fun e => id e <> X) C \/
  exists pre d post,
    C = pre ++ d :: post /\ Forall (fun e => id e <> X) pre /\ id d = X /\
    split (translate "Models" (title d)) = [].
Proof.
  split.
  - destruct (exact_match X C) as [d|] eqn:Hm;
      [|intros _; left; by apply exact_match_None].
    apply exact_match_Some in Hm as (pre & post & -> & Hd & Hpre).
    rewrite (getModelSearchKeywords_label X pre post d Hpre Hd).
    intros [= Hs]. right. exists pre, d, post. repeat split; try done.
    destruct (label_words _ (split_words (translate "Models" (title d))))
      as (Hl & _ & Hnil).
    apply Hnil. rewrite <- (split_join _ Hl). by rewrite Hs.
  - intros [Habs | (pre & d & post & -> & Hpre & Hd & Hw)].
    + apply exact_match_None in Habs.
      unfold getModelSearchKeywords. by rewrite Habs.
    + rewrite (getModelSearchKeywords_label X pre post d Hpre Hd). by rewrite Hw.
Qed.

Lemma tutorial_keep (w : string) :
  lower w <> "the" ->
  negb (contains Slicer4MinuteTest.skipWords (lower w)) && (2 <? len w) = keep w.
Proof.
  intros Hw. rewrite <- keep_code. f_equal. f_equal.
  unfold contains, skipWords, Slicer4MinuteTest.skipWords. simpl.
  apply String.eqb_neq in Hw. by rewrite Hw.
Qed.

Lemma tutorial_collect_keywords (words acc : list string) :
  Forall (fun w => lower w <> "the") words ->
  Slicer4MinuteTest.collect_keywords words acc = collect_keywords words acc.
Proof.
  intros H. revert acc. induction H as [|w words Hw _ IH]; intros acc; [done|].
  rewrite collect_keywords_cons.
  change (Slicer4MinuteTest.collect_keywords (w :: words) acc) with
    (if negb (contains Slicer4MinuteTest.skipWords (lower w)) && (2 <? len w)
     then if 2 <=? length (acc ++ [w]) then acc ++ [w]
          else Slicer4MinuteTest.collect_keywords words (acc ++ [w])
     else Slicer4MinuteTest.collect_keywords words acc).
  rewrite (tutorial_keep w Hw). by rewrite !IH.
Qed.

(** X12.  The copy of the extractor in the tutorial script, whose stop
    list has no ["the"], returns what [model_selection_utils] returns
    whenever no word of the translated title is ["the"] in any letter
    case. *)
Theorem extractor_copies_agree (X : string) (C : list Model) :
  (forall d, exact_match X C = Some d ->
             Forall (fun w => lower w <> "the")
                    (split (translate "Models" (title d)))) ->
  Slicer4MinuteTest.getModelSearchKeywords translate X C
  = getModelSearchKeywords translate X C.
Proof.
  intros H. unfold Slicer4MinuteTest.getModelSearchKeywords, getModelSearchKeywords.
  destruct (exact_match X C) as [d|]; [|done].
  by rewrite (tutorial_collect_keywords _ _ (H d eq_refl)).
Qed.

End ExtractorMore.

(** * Setting the model: [setModelById] *)

Section SetModelFacts.
Import model_selection_utils.
Variable translate : string -> string -> string.


(** X14.  After a call that returns, the parameter ["Model"] holds the id
    returned, this id belongs to a descriptor of the collection, and no
    other parameter has changed. *)
Theorem setModelById_parameter
        (X r : string) (C : list Model) (flag : bool) (host host' : Host) :
  setModelById translate X C flag host = (Return r, host') ->
  parameterNode host' !! "Model" = Some r
  /\ (exists d, d ∈ C /\ id d = r)
  /\ (forall key, key <> "Model" ->
                  parameterNode host' !! key = parameterNode host !! key).
Proof.
  unfold setModelById. destruct (findModelId X C) as [a|e] eqn:Hf; [|discriminate].
  intros [= <- <-]. simpl. split; [by rewrite lookup_insert_eq|].
  split; [by apply (findModelId_Return_elem X)|].
  intros key Hkey. by rewrite lookup_insert_ne.
Qed.

(** X15.  After a call that returns, a search box that is shown holds the
    label of the first descriptor whose id is the id returned (such a
    descriptor exists, also after a fallback), or the empty text when
    [useTranslatedKeywords] is false; a search box that is missing or out
    of reach is left as it is. *)
Theorem setModelById_search_box
        (X r : string) (C : list Model) (flag : bool) (host host' : Host) :
  setModelById translate X C flag host = (Return r, host') ->
  match modelSearchBox host with
  | BoxPresent _ =>
      exists pre d post,
        C = pre ++ d :: post /\ Forall (fun e => id e <> r) pre /\ id d = r /\
        modelSearchBox host'
        = BoxPresent (if flag
                      then join " " (label (split (translate "Models" (title d))))
                      else "")
  | box => modelSearchBox host' = box
  end.
Proof.
  unfold setModelById. destruct (findModelId X C) as [a|e] eqn:Hf; [|discriminate].
  intros [= <- <-]. simpl.
  destruct (modelSearchBox host) as [| |text]; [done..|].
  apply findModelId_Return_elem in Hf as (d0 & Hin & Hd0).
  destruct (exact_match_elem a C d0 Hin Hd0) as [d Hm].
  apply exact_match_Some in Hm as (pre & post & -> & Hd & Hpre).
  exists pre, d, post. repeat split; try done.
  simpl. destruct flag; [|done].
  by rewrite (getModelSearchKeywords_label translate a pre post d Hpre Hd).
Qed.

End SetModelFacts.

(** * The tutorial name without its id *)

Section TutorialName.
Import setup_tutorial_files.

Lemma split_once_absent (sep : ascii) (s : string) :
  has_char sep s = false -> split_once sep s = [s].
Proof.
  induction s as [|c s IH]; simpl; [done|].
  destruct (Ascii.eqb c sep); [discriminate|]. simpl.
  intros H. by rewrite IH.
Qed.

Lemma split_once_present (sep : ascii) (s : string) :
  has_char sep s = true ->
  exists p r,
    s = p +:+ String sep r /\ has_char sep p = false /\
    split_once sep s = [p; r].
Proof.
  induction s as [|c s IH]; simpl; [discriminate|].
  destruct (Ascii.eqb_spec c sep) as [->|Hne]; simpl.
  - intros _. by exists "", s.
  - intros H. destruct (IH H) as (p & r & -> & Hp & ->).
    exists (String c p), r. repeat split; simpl.
    by apply Ascii.eqb_neq in Hne as ->.
Qed.

(** X16.  The tutorial name without its id is always defined (the index
    [1] is never out of range): it is the name itself when the name has
    no underscore, and otherwise what follows the first underscore. *)
Theorem tutorial_name_only_spec (tutorial_name : string) :
  (has_char "_" tutorial_name = false /\
   tutorial_name_only tutorial_name = Return tutorial_name)
  \/
  (exists id_part name_only,
     tutorial_name = id_part +:+ "_" +:+ name_only /\
     has_char "_" id_part = false /\
     tutorial_name_only tutorial_name = Return name_only).
Proof.
  unfold tutorial_name_only.
  destruct (has_char "_" tutorial_name) eqn:H; [right | by left].
  apply split_once_present in H as (p & r & -> & Hp & Hs).
  exists p, r. rewrite Hs. by repeat split.
Qed.

End TutorialName.

(** * The resolver of the tutorial script *)

Section TutorialResolver.
Import model_selection_utils.
Variable repr : list string -> string.

Lemma tutorial_fallback_list (baseName : string) (C : list Model) :
  map id (Slicer4MinuteTest.collect_matching baseName C [])
  = findModelsByBaseName baseName C true.
Proof.
  unfold findModelsByBaseName.
  rewrite tutorial_collect_matching_filter, base_name_loop_filter, !app_nil_l.
  induction C as [|e C IH]; simpl; [done|].
  destruct (startswith _ _); simpl; by rewrite IH.
Qed.

(** X17.  The fallback of the copy in the tutorial script is the head of
    [findModelsByBaseName] with [includeDeprecated]: for a requested id
    that is absent and whose base name is [baseName], the copy returns
    the first id of that list, deprecated or not, and raises when the
    list is empty. *)
Theorem tutorial_findModelId_head (X baseName : string) (C : list Model) :
  Forall (fun e => id e <> X) C ->
  Re.match_group1 Re.version_pattern X = Some baseName ->
  Slicer4MinuteTest.findModelId repr X C =
    match findModelsByBaseName baseName C true with
    | r :: _ => Return r
    | [] => Raise (ValueError (Slicer4MinuteTest.errorMsg repr X C))
    end.
Proof.
  intros Habs Hre. rewrite <- tutorial_fallback_list.
  unfold Slicer4MinuteTest.findModelId.
  apply exact_match_None in Habs. rewrite Habs, Hre.
  by destruct (Slicer4MinuteTest.collect_matching _ _ _).
Qed.

(** X18.  The two copies of the resolver return the same id, and raise
    together, for every request such that no descriptor whose id starts
    with the base name of the request followed by [-v] is deprecated. *)
Theorem resolver_copies_agree (X : string) (C : list Model) :
  (forall baseName d,
     Re.match_group1 Re.version_pattern X = Some baseName ->
     d ∈ C -> startswith (id d) (baseName +:+ "-v") = true ->
     get_deprecated d = false) ->
  match findModelId X C, Slicer4MinuteTest.findModelId repr X C with
  | Return a, Return b => a = b
  | Raise _, Raise _ => True
  | _, _ => False
  end.
Proof.
  intros Hnd. rewrite findModelId_unfold. unfold Slicer4MinuteTest.findModelId.
  destruct (exact_match X C); [done|].
  destruct (Re.match_group1 _ _) as [b|]; [|done].
  rewrite tutorial_collect_matching_filter. simpl.
  assert (List.filter (candidate b) C
          = List.filter (fun d => startswith (id d) (b +:+ "-v")) C) as ->.
  { specialize (Hnd b). clear -Hnd.
    induction C as [|e C IH]; simpl; [done|].
    rewrite IH by (intros d ? Hin; apply Hnd; [done | by right]).
    unfold candidate at 1.
    destruct (startswith (id e) (b +:+ "-v")) eqn:Hs; [|done].
    rewrite (Hnd e eq_refl); [done | by left | done]. }
  by destruct (List.filter _ _).
Qed.

End TutorialResolver.

(** * Instances of the further properties *)

Section MoreInstances.
Import model_selection_utils.

Lemma findModelId_known_id_witness :
  (exists d, d ∈ [prostate_1_0_3_old; prostate_1_0_1] /\ id d = "prostate-v1.0.1")
  /\ is_Some (exact_match "prostate-v1.0.1" [prostate_1_0_3_old; prostate_1_0_1]).
Proof.
  apply (findModelId_known_id "prostate-v1.0.0" "prostate-v1.0.1"
           [prostate_1_0_3_old; prostate_1_0_1]).
  reflexivity.
Defined.

Lemma findModelId_substitute_witness :
  Forall (fun e => id e <> "prostate-v1.0.0") [prostate_1_0_3_old; prostate_1_0_1]
  /\ exists baseName d,
       Re.match_group1 Re.version_pattern "prostate-v1.0.0" = Some baseName /\
       d ∈ [prostate_1_0_3_old; prostate_1_0_1] /\ id d = "prostate-v1.0.1" /\
       get_deprecated d = false /\
       startswith "prostate-v1.0.1" (baseName +:+ "-v") = true.
Proof.
  apply (findModelId_substitute "prostate-v1.0.0" "prostate-v1.0.1"
           [prostate_1_0_3_old; prostate_1_0_1]).
  - reflexivity.
  - discriminate.
Defined.

Lemma findModelId_idempotent_witness :
  findModelId "prostate-v1.0.1" [prostate_1_0_3_old; prostate_1_0_1]
  = Return "prostate-v1.0.1".
Proof.
  apply (findModelId_idempotent "prostate-v1.0.0" "prostate-v1.0.1"
           [prostate_1_0_3_old; prostate_1_0_1]).
  reflexivity.
Defined.

Lemma findModelId_head_of_base_name_witness :
  findModelId "prostate-v1.0.0" [prostate_1_0_3_old; prostate_1_0_1; prostate_1_0_2]
  = Return "prostate-v1.0.1".
Proof.
  apply (findModelId_head_of_base_name "prostate-v1.0.0" "prostate"
           [prostate_1_0_3_old; prostate_1_0_1; prostate_1_0_2]).
  - repeat constructor; discriminate.
  - reflexivity.
Defined.

Lemma findModelsByBaseName_resolves_witness :
  startswith "prostate-v1.0.3" ("prostate" +:+ "-v") = true
  /\ findModelId "prostate-v1.0.3" [whole_body; prostate_1_0_3_old; prostate_1_0_1]
     = Return "prostate-v1.0.3".
Proof.
  apply (findModelsByBaseName_resolves "prostate" "prostate-v1.0.3"
           [whole_body; prostate_1_0_3_old; prostate_1_0_1] true).
  apply list_elem_of_here.
Defined.

Lemma getModelSearchKeywords_two_words_witness :
  length (split "Whole Body") <= 2 /\ join " " (split "Whole Body") = "Whole Body".
Proof.
  apply (getModelSearchKeywords_two_words identity "whole-body-3mm-v1.0.0"
           "Whole Body" [prostate_1_0_1; whole_body]).
  reflexivity.
Defined.

Lemma extractor_copies_agree_witness :
  Slicer4MinuteTest.getModelSearchKeywords identity "whole-body-3mm-v1.0.0"
    [prostate_1_0_1; whole_body]
  = getModelSearchKeywords identity "whole-body-3mm-v1.0.0"
      [prostate_1_0_1; whole_body].
Proof.
  apply extractor_copies_agree.
  intros d Hd.
  assert (Hw : d = whole_body) by (vm_compute in Hd; by injection Hd as <-).
  assert (Hs : split (identity "Models" (title whole_body))
               = ["Whole"; "Body"; "Segmentation"; "TS2"; "-"; "quick"])
    by (vm_compute; reflexivity).
  rewrite Hw, Hs.
  repeat (constructor; [apply String.eqb_neq; vm_compute; reflexivity|]).
  constructor.
Defined.

Lemma setModelById_parameter_witness :
  let host' := (setModelById identity "prostate-v1.0.0"
                  [prostate_1_0_3_old; prostate_1_0_1] true host0).2 in
  parameterNode host' !! "Model" = Some "prostate-v1.0.1"
  /\ (exists d, d ∈ [prostate_1_0_3_old; prostate_1_0_1] /\ id d = "prostate-v1.0.1")
  /\ (forall key, key <> "Model" ->
                  parameterNode host' !! key = parameterNode host0 !! key).
Proof.
  apply (setModelById_parameter identity "prostate-v1.0.0" "prostate-v1.0.1"
           [prostate_1_0_3_old; prostate_1_0_1] true host0).
  reflexivity.
Defined.

Lemma setModelById_search_box_witness :
  exists pre d post,
    [prostate_1_0_3_old; prostate_1_0_1] = pre ++ d :: post /\
    Forall (fun e => id e <> "prostate-v1.0.1") pre /\
    id d = "prostate-v1.0.1" /\
    modelSearchBox (setModelById identity "prostate-v1.0.0"
                      [prostate_1_0_3_old; prostate_1_0_1] true host0).2
    = BoxPresent (join " " (label (split (identity "Models" (title d))))).
Proof.
  apply (setModelById_search_box identity "prostate-v1.0.0" "prostate-v1.0.1"
           [prostate_1_0_3_old; prostate_1_0_1] true host0).
  reflexivity.
Defined.

Lemma tutorial_findModelId_head_witness :
  Slicer4MinuteTest.findModelId (fun _ => "") "prostate-v1.0.0"
    [whole_body; prostate_1_0_3_old; prostate_1_0_1]
  = Return "prostate-v1.0.3".
Proof.
  apply (tutorial_findModelId_head (fun _ => "") "prostate-v1.0.0" "prostate"
           [whole_body; prostate_1_0_3_old; prostate_1_0_1]).
  - repeat constructor; discriminate.
  - reflexivity.
Defined.

Lemma resolver_copies_agree_witness :
  match findModelId "whole-body-3mm-v1.0.1" [prostate_1_0_3_old; whole_body],
        Slicer4MinuteTest.findModelId (fun _ => "") "whole-body-3mm-v1.0.1"
          [prostate_1_0_3_old; whole_body] with
  | Return a, Return b => a = b
  | Raise _, Raise _ => True
  | _, _ => False
  end.
Proof.
  apply resolver_copies_agree.
  intros baseName d [= <-] Hin Hs.
  apply list_elem_of_In in Hin. simpl in Hin.
  destruct Hin as [<- | [<- | []]]; [discriminate | reflexivity].
Defined.

(** The copies of the extractor part on a title that holds ["The"]. *)
Example ex_extractor_copies_differ :
  let C := [mkModel "x" "The Brain Tumor" "1" None] in
  getModelSearchKeywords identity "x" C = Return "Brain Tumor"
  /\ Slicer4MinuteTest.getModelSearchKeywords identity "x" C = Return "The Brain".
Proof. split; reflexivity. Qed.

Example ex_findModelsByBaseName :
  findModelsByBaseName "prostate"
    [prostate_1_0_1; whole_body; prostate_1_0_3_old; prostate_1_0_2] false
  = ["prostate-v1.0.1"; "prostate-v1.0.2"]
  /\ findModelsByBaseName "prostate"
       [prostate_1_0_1; whole_body; prostate_1_0_3_old; prostate_1_0_2] true
     = ["prostate-v1.0.1"; "prostate-v1.0.3"; "prostate-v1.0.2"].
Proof. split; reflexivity. Qed.

Example ex_listAvailableModels :
  listAvailableModels catalogue false
  = [ mkDescriptor (mkModel "prostate-v1.0.1" "Prostate Segmentation" "1.0.1"
                            (Some false)) (Some "") (Some "MR");
      mkDescriptor (mkModel "whole-body-3mm-v1.0.0"
                            "Whole Body Segmentation TS2 - quick" "1.0.0"
                            (Some false)) (Some "Whole body") (Some "") ].
Proof. reflexivity. Qed.

Example ex_setModelById_raises :
  setModelById identity "brain-v1.0.0" [prostate_1_0_1] true host0
  = (findModelId "brain-v1.0.0" [prostate_1_0_1], host0).
Proof. reflexivity. Qed.

Example ex_tutorial_name_only :
  setup_tutorial_files.tutorial_name_only "STC-GEN-101_Welcome_Tutorial"
  = Return "Welcome_Tutorial"
  /\ setup_tutorial_files.tutorial_name_only "WelcomeTutorial"
     = Return "WelcomeTutorial"
  /\ setup_tutorial_files.tutorial_name_only "_" = Return "".
Proof. repeat split. Qed.

End MoreInstances.
